(** * Flash storefront PWA: offline checkout queue and notification campaigns

    Shallow embedding of the parts of the storefront that carry the
    ordering, expiry, eligibility and scheduling logic:
    - [public/sw.js]: the IndexedDB checkout queue ([enqueueCheckout],
      [getAllQueuedCheckouts], [deleteQueuedCheckout]), the replay pass
      [processCheckoutQueue] and the [message] / [sync] listeners;
    - the Express server: [minutesFromHHMM], [isWithinQuietHours],
      [isTemporarilyMuted], [filterEligibleSubscriptions], [dispatchCampaign],
      [scheduleCampaignDispatch], [bootstrapCampaignScheduler] and the
      [POST /api/orders] handler.

    Timestamps are milliseconds since the epoch ([Date.now()],
    [new Date(x).getTime()]) and are modelled as [Z]. *)

From Stdlib Require Import String Ascii List ZArith Bool Lia Sorting.Sorted.
From Stdlib Require Import Structures.OrderedTypeEx.
Import ListNotations.
Open Scope Z_scope.

(* ------------------------------------------------------------------------ *)
(** ** Service worker: the checkout queue *)

(** A [CheckoutPayload]; only its [id] is read by the worker, the rest is
    carried through unchanged (JSON text). *)
Record Payload := mkPayload { order_id : string; order_body : string }.

(** The object stored by [enqueueCheckout]:
    [{ id: payload.id, payload, queuedAt: Date.now() }]. *)
Record QueueItem := mkItem { qid : string; qpayload : Payload; queuedAt : Z }.

(** Messages posted by the worker to its clients. *)
Inductive Msg :=
| CHECKOUT_SYNC_PENDING (count : nat)
| CHECKOUT_SYNC_COMPLETE (success : bool) (order : Payload) (reason : option string).

(** Result of [fetch(`${API_BASE_URL}/orders`, ...)]: a rejected promise
    (network error) or a response with its HTTP status. *)
Inductive FetchResult :=
| NetworkError
| Response (status : Z).

(** [response.ok]: status in 200..299. *)
Definition response_ok (r : FetchResult) : bool :=
  match r with
  | NetworkError => false
  | Response st => (200 <=? st) && (st <=? 299)
  end.

(** The object store [CHECKOUT_STORE], created with [{ keyPath: 'id' }].
    An IndexedDB object store keeps its records ordered by primary key;
    string keys compare code unit by code unit, which for the ASCII ids
    of this model is [String.compare].  The store is the list of its
    records in key order. *)
Definition Store := list QueueItem.

(** [store.put(record)]: insert at the key's position, or overwrite the
    record that has the same key. *)
Fixpoint store_put (it : QueueItem) (st : Store) : Store :=
  match st with
  | [] => [it]
  | x :: r =>
      match String.compare (qid it) (qid x) with
      | Lt => it :: x :: r
      | Eq => it :: r
      | Gt => x :: store_put it r
      end
  end.

(** [store.delete(id)]. *)
Definition store_delete (id : string) (st : Store) : Store :=
  filter (fun x => negb (String.eqb (qid x) id)) st.

(** [store.getAll()]: every record, in key order. *)
Definition store_getAll (st : Store) : list QueueItem := st.

(** Records are in strictly increasing key order (the object store's
    invariant). *)
Fixpoint ids_sorted (st : Store) : bool :=
  match st with
  | [] => true
  | x :: r =>
      match r with
      | [] => true
      | y :: _ => match String.compare (qid x) (qid y) with
                  | Lt => ids_sorted r
                  | _ => false
                  end
      end
  end.

(** State seen by the worker: the queue store, the messages broadcast to
    clients and the bodies POSTed to [/orders], in order. *)
Record SwState := mkSw { store : Store; outbox : list Msg; posted : list Payload }.

Definition set_store (st : Store) (s : SwState) : SwState :=
  mkSw st (outbox s) (posted s).

Definition broadcastMessage (m : Msg) (s : SwState) : SwState :=
  mkSw (store s) (outbox s ++ [m]) (posted s).

Definition post_order (p : Payload) (s : SwState) : SwState :=
  mkSw (store s) (outbox s) (posted s ++ [p]).

(** [enqueueCheckout(payload)] at instant [now]. *)
Definition enqueueCheckout (now : Z) (payload : Payload) (s : SwState) : SwState :=
  set_store (store_put (mkItem (order_id payload) payload now) (store s)) s.

(** [getAllQueuedCheckouts()]. *)
Definition getAllQueuedCheckouts (s : SwState) : list QueueItem :=
  store_getAll (store s).

(** [deleteQueuedCheckout(id)]. *)
Definition deleteQueuedCheckout (id : string) (s : SwState) : SwState :=
  set_store (store_delete id (store s)) s.

(** [sendQueueStatus()] without a client id: broadcast the queue length. *)
Definition sendQueueStatus (s : SwState) : SwState :=
  broadcastMessage (CHECKOUT_SYNC_PENDING (length (getAllQueuedCheckouts s))) s.

(** ** The replay pass [processCheckoutQueue] *)

Section Replay.

(** The outcome of the POST to [/orders] for each payload, and the clock
    [Date.now()] during the pass. *)
Variable fetch_order : Payload -> FetchResult.
Variable now : Z.

(** [ageMinutes = (Date.now() - item.queuedAt) / (1000 * 60)] and the test
    [ageMinutes > 72 * 60].  The division is exact on reals and monotone
    after rounding, so for integer milliseconds the test is
    [Date.now() - item.queuedAt > 72 * 60 * 1000 * 60]. *)
Definition is_expired (item : QueueItem) : bool :=
  (72 * 60) * (1000 * 60) <? now - queuedAt item.

(** The [for (const item of queue)] loop over the snapshot [queue]; a
    failed [fetch] (rejected or [!response.ok]) is caught and [break]s. *)
Fixpoint replay_items (queue : list QueueItem) (s : SwState) : SwState :=
  match queue with
  | [] => s
  | item :: rest =>
      if is_expired item then
        replay_items rest
          (broadcastMessage
             (CHECKOUT_SYNC_COMPLETE false (qpayload item) (Some "expired"%string))
             (deleteQueuedCheckout (qid item) s))
      else
        let s1 := post_order (qpayload item) s in
        if response_ok (fetch_order (qpayload item)) then
          replay_items rest
            (broadcastMessage (CHECKOUT_SYNC_COMPLETE true (qpayload item) None)
               (deleteQueuedCheckout (qid item) s1))
        else s1
  end.

(** [processCheckoutQueue()]. *)
Definition processCheckoutQueue (s : SwState) : SwState :=
  let queue := getAllQueuedCheckouts s in
  match queue with
  | [] => broadcastMessage (CHECKOUT_SYNC_PENDING 0) s
  | _ => sendQueueStatus (replay_items queue s)
  end.

(** *** The pass as suspendable steps

    Every [await] of [processCheckoutQueue] is a point where the worker's
    event loop may run another handler.  A running pass is a program
    counter; one [pass_step] runs it up to its next suspension point that
    matters for the store and the network (merging consecutive awaits only
    removes interleavings). *)
Inductive PassPC :=
| PStart                                   (* before getAllQueuedCheckouts *)
| PLoop (queue : list QueueItem)          (* top of the for loop *)
| PAwaitFetch (item : QueueItem) (rest : list QueueItem) (* fetch sent *)
| PFinish                                  (* before the final sendQueueStatus *)
| PDone.

Definition pass_step (pc : PassPC) (s : SwState) : PassPC * SwState :=
  match pc with
  | PStart =>
      match getAllQueuedCheckouts s with
      | [] => (PDone, broadcastMessage (CHECKOUT_SYNC_PENDING 0) s)
      | q => (PLoop q, s)
      end
  | PLoop [] => (PFinish, s)
  | PLoop (item :: rest) =>
      if is_expired item then
        (PLoop rest,
         broadcastMessage
           (CHECKOUT_SYNC_COMPLETE false (qpayload item) (Some "expired"%string))
           (deleteQueuedCheckout (qid item) s))
      else (PAwaitFetch item rest, post_order (qpayload item) s)
  | PAwaitFetch item rest =>
      if response_ok (fetch_order (qpayload item)) then
        (PLoop rest,
         broadcastMessage (CHECKOUT_SYNC_COMPLETE true (qpayload item) None)
           (deleteQueuedCheckout (qid item) s))
      else (PFinish, s)
  | PFinish => (PDone, sendQueueStatus s)
  | PDone => (PDone, s)
  end.

(** Events delivered to the worker. *)
Inductive SwEvent :=
| QUEUE_CHECKOUT (payload : Payload)
| CHECKOUT_SYNC_STATUS_REQUEST
| TRIGGER_CHECKOUT_SYNC
| SyncEvent (tag : string).

(** The worker: shared state and the passes started so far (each an
    [event.waitUntil(processCheckoutQueue())]). *)
Record Worker := mkWorker { wstate : SwState; passes : list PassPC }.

(** The [message] and [sync] listeners.  Enqueue and status requests are
    taken as one step (they do not run a pass). *)
Definition handle_event (ev : SwEvent) (w : Worker) : Worker :=
  match ev with
  | QUEUE_CHECKOUT p =>
      mkWorker (sendQueueStatus (enqueueCheckout now p (wstate w))) (passes w)
  | CHECKOUT_SYNC_STATUS_REQUEST =>
      mkWorker (sendQueueStatus (wstate w)) (passes w)
  | TRIGGER_CHECKOUT_SYNC => mkWorker (wstate w) (passes w ++ [PStart])
  | SyncEvent tag =>
      if String.eqb tag "checkout-sync" then mkWorker (wstate w) (passes w ++ [PStart])
      else w
  end.

(** The event loop: deliver an event, or resume pass number [i]. *)
Inductive Action := Deliver (ev : SwEvent) | Resume (i : nat).

Fixpoint replace_nth {A} (n : nat) (x : A) (l : list A) : list A :=
  match l, n with
  | [], _ => []
  | _ :: r, O => x :: r
  | y :: r, S k => y :: replace_nth k x r
  end.

Definition worker_act (a : Action) (w : Worker) : Worker :=
  match a with
  | Deliver ev => handle_event ev w
  | Resume i =>
      match nth_error (passes w) i with
      | None => w
      | Some pc =>
          let '(pc', s') := pass_step pc (wstate w) in
          mkWorker s' (replace_nth i pc' (passes w))
      end
  end.

Fixpoint worker_run (acts : list Action) (w : Worker) : Worker :=
  match acts with
  | [] => w
  | a :: r => worker_run r (worker_act a w)
  end.

Definition in_progress (pc : PassPC) : bool :=
  match pc with PDone => false | _ => true end.

End Replay.

(* ------------------------------------------------------------------------ *)
(** ** Server: audience filter *)

(** [/^\d{2}:\d{2}$/]: one ASCII digit. *)
Definition is_digit (c : ascii) : bool :=
  (48 <=? nat_of_ascii c)%nat && (nat_of_ascii c <=? 57)%nat.

Definition digit_value (c : ascii) : Z := Z.of_nat (nat_of_ascii c) - 48.

(** [minutesFromHHMM(value)]: [null] unless [value] is truthy and matches
    [^\d{2}:\d{2}$]; then [hours * 60 + minutes] with
    [Number("07") = 7].  [None] stands for [undefined]/[null]. *)
Definition minutesFromHHMM (value : option string) : option Z :=
  match value with
  | None => None
  | Some (String h1 (String h2 (String c (String m1 (String m2 EmptyString))))) =>
      if is_digit h1 && is_digit h2 && Ascii.eqb c ":" && is_digit m1 && is_digit m2
      then Some ((digit_value h1 * 10 + digit_value h2) * 60
                 + (digit_value m1 * 10 + digit_value m2))
      else None
  | Some _ => None
  end.

(** [preferences.quietHours]; absent fields are [None]. *)
Record QuietHours := mkQuiet {
  qh_enabled : bool;
  qh_start : option string;
  qh_end : option string;
  qh_timezone : option string
}.

(** [NotificationPreferences]: the per-category flags ([flashSales],
    [newArrivals], [priceDrops], [backInStock]) as an association list,
    [quietHours], and [mutedUntil] as an instant ([None] for a falsy
    value). *)
Record Preferences := mkPrefs {
  flags : list (string * bool);
  quietHours : option QuietHours;
  mutedUntil : option Z
}.

(** A stored subscription.  [expirationTime] is [None] when it is null:
    [save-subscription] stores [cleanSub.expirationTime || null]. *)
Record Subscription := mkSub {
  endpoint : string;
  expirationTime : option Z;
  preferences : option Preferences
}.

(** [preferences[category]]: a missing key is [undefined] (falsy). *)
Definition category_flag (p : Preferences) (category : string) : bool :=
  match find (fun kv => String.eqb (fst kv) category) (flags p) with
  | Some (_, b) => b
  | None => false
  end.

(** [quiet.timezone || "UTC"]. *)
Definition timezone_or_utc (tz : option string) : string :=
  match tz with
  | Some (String _ _ as z) => z
  | _ => "UTC"%string
  end.

Section Audience.

(** The wall-clock of [Intl.DateTimeFormat("en-GB", { hour: "2-digit",
    minute: "2-digit", hour12: false, timeZone })] at an instant, read back
    as [hh * 60 + mm]. *)
Variable local_minutes : string -> Z -> Z.

(** [isWithinQuietHours(preferences)] at instant [now]. *)
Definition isWithinQuietHours (p : Preferences) (now : Z) : bool :=
  match quietHours p with
  | None => false
  | Some quiet =>
      if negb (qh_enabled quiet) then false
      else
        let currentMinutes := local_minutes (timezone_or_utc (qh_timezone quiet)) now in
        match minutesFromHHMM (qh_start quiet), minutesFromHHMM (qh_end quiet) with
        | Some start, Some end_ =>
            if start <=? end_ then (start <=? currentMinutes) && (currentMinutes <? end_)
            else (start <=? currentMinutes) || (currentMinutes <? end_)
        | _, _ => false
        end
  end.

(** [isTemporarilyMuted(preferences)]. *)
Definition isTemporarilyMuted (p : Preferences) (now : Z) : bool :=
  match mutedUntil p with
  | None => false
  | Some t => now <? t
  end.

(** The callback of [filterEligibleSubscriptions]. *)
Definition eligible (category : string) (now : Z) (sub : Subscription) : bool :=
  match preferences sub with
  | None => false
  | Some p =>
      if negb (category_flag p category) then false
      else if isTemporarilyMuted p now then false
      else if isWithinQuietHours p now then false
      else match expirationTime sub with
           | Some t => if t <? now then false else true
           | None => true
           end
  end.

Definition filterEligibleSubscriptions (subs : list Subscription) (category : string)
  (now : Z) : list Subscription :=
  filter (eligible category now) subs.

(* ------------------------------------------------------------------------ *)
(** ** Server: campaign dispatch *)

Inductive CampaignStatus := Scheduled | Sent.

(** A campaign document ([descriptor] plus the persisted fields). *)
Record Campaign := mkCampaign {
  c_id : option string;                 (* _id *)
  c_title : string;
  c_body : string;
  c_category : string;
  c_campaignId : option string;
  c_notificationId : option string;
  c_sendAt : option Z;
  c_status : CampaignStatus;
  c_successCount : option nat;
  c_audienceCount : option nat
}.

(** A [campaignEvents] record: [event] with [metadata = {audience, delivered}]. *)
Record CampaignEvent := mkEvent {
  ev_campaignId : option string;
  ev_notificationId : option string;
  ev_event : string;
  ev_category : string;
  ev_audience : nat;
  ev_delivered : nat
}.

(** Outcome of [webpush.sendNotification] for an endpoint. *)
Inductive PushOutcome := PushDelivered | PushFailed (statusCode : Z).

(** The server's collections, and the pushes handed to the push service
    (endpoint, campaign the payload was built from). *)
Record Db := mkDb {
  subscriptions : list Subscription;
  campaigns : list Campaign;
  campaignEvents : list CampaignEvent;
  pushes : list (string * Campaign)
}.

Variable push_outcome : string -> PushOutcome.

(** [subscriptions.deleteOne({ endpoint })]: the first match;
    [deletedCount] is whether there was one.  An absent [endpoint] is
    sent as [null], which no stored subscription has. *)
Fixpoint delete_one (e : string) (subs : list Subscription) : bool * list Subscription :=
  match subs with
  | [] => (false, [])
  | s :: r =>
      if String.eqb (endpoint s) e then (true, r)
      else let '(d, r') := delete_one e r in (d, s :: r')
  end.

(** [sendWebPush(subscription, payload)]: a 410 or 404 deletes the first
    stored subscription with that endpoint ([deleteOne]). *)
Definition sendWebPush (sub : Subscription) (c : Campaign) (db : Db) : bool * Db :=
  let db1 := mkDb (subscriptions db) (campaigns db) (campaignEvents db)
                  (pushes db ++ [(endpoint sub, c)]) in
  match push_outcome (endpoint sub) with
  | PushDelivered => (true, db1)
  | PushFailed code =>
      if (code =? 410) || (code =? 404) then
        (false, mkDb (snd (delete_one (endpoint sub) (subscriptions db1)))
                     (campaigns db1) (campaignEvents db1) (pushes db1))
      else (false, db1)
  end.

(** [Promise.all(eligible.map(sendWebPush))]: one send per eligible
    subscription; the results in order. *)
Fixpoint send_all (eligibles : list Subscription) (c : Campaign) (db : Db)
  : list bool * Db :=
  match eligibles with
  | [] => ([], db)
  | sub :: r =>
      let '(ok, db1) := sendWebPush sub c db in
      let '(oks, db2) := send_all r c db1 in
      (ok :: oks, db2)
  end.

(** [recordCampaignEvent]: nothing without [campaignId] or [notificationId]. *)
Definition recordCampaignEvent (e : CampaignEvent) (db : Db) : Db :=
  match ev_campaignId e, ev_notificationId e with
  | None, None => db
  | _, _ => mkDb (subscriptions db) (campaigns db) (campaignEvents db ++ [e]) (pushes db)
  end.

(** [campaigns.updateOne({ _id }, { $set: { status: "sent", sentAt,
    successCount, audienceCount } })]: the first document with that [_id]. *)
Fixpoint mark_sent (id : string) (succ aud : nat) (cs : list Campaign) : list Campaign :=
  match cs with
  | [] => []
  | c :: r =>
      match c_id c with
      | Some i =>
          if String.eqb i id then
            mkCampaign (c_id c) (c_title c) (c_body c) (c_category c) (c_campaignId c)
              (c_notificationId c) (c_sendAt c) Sent (Some succ) (Some aud) :: r
          else c :: mark_sent id succ aud r
      | None => c :: mark_sent id succ aud r
      end
  end.

(** [subscriptions.find({ ["preferences." + category]: true })]. *)
Definition opted_in (category : string) (sub : Subscription) : bool :=
  match preferences sub with
  | Some p =>
      match find (fun kv => String.eqb (fst kv) category) (flags p) with
      | Some (_, true) => true
      | _ => false
      end
  | None => false
  end.

(** [dispatchCampaign(campaign)] at instant [now]. *)
Definition dispatchCampaign (now : Z) (campaign : Campaign) (db : Db) : Db :=
  let audience := filter (opted_in (c_category campaign)) (subscriptions db) in
  let eligibles := filterEligibleSubscriptions audience (c_category campaign) now in
  let '(results, db1) := send_all eligibles campaign db in
  let successCount := length (filter (fun b => b) results) in
  let db2 := recordCampaignEvent
               (mkEvent (c_campaignId campaign) (c_notificationId campaign) "deliver"
                  (c_category campaign) (length eligibles) successCount) db1 in
  match c_id campaign with
  | Some id =>
      mkDb (subscriptions db2) (mark_sent id successCount (length eligibles) (campaigns db2))
           (campaignEvents db2) (pushes db2)
  | None => db2
  end.

End Audience.

(* ------------------------------------------------------------------------ *)
(** ** Server: scheduler *)

Section Scheduler.

Variable local_minutes : string -> Z -> Z.
Variable push_outcome : string -> PushOutcome.

(** Node's [setTimeout(cb, delay)]: "When delay is larger than 2147483647
    or less than 1, the delay will be set to 1" (Node.js timers
    documentation); a [NaN] delay is also set to 1. *)
Definition node_timer_delay (delay : Z) : Z :=
  if (2147483647 <? delay) || (delay <? 1) then 1 else delay.

(** Server process state: the database, the pending [setTimeout]
    callbacks (due instant, captured campaign) and the keys of the
    [scheduledCampaigns] map. *)
Record Sched := mkSched {
  sdb : Db;
  timers : list (Z * Campaign);
  scheduledCampaigns : list string
}.

Definition campaign_key (c : Campaign) : string :=
  match c_id c with Some i => i | None => "undefined"%string end.

Definition map_set (k : string) (keys : list string) : list string :=
  if existsb (String.eqb k) keys then keys else keys ++ [k].

Definition map_delete (k : string) (keys : list string) : list string :=
  filter (fun x => negb (String.eqb x k)) keys.

(** [scheduleCampaignDispatch(campaign)] at instant [now]. *)
Definition scheduleCampaignDispatch (now : Z) (campaign : Campaign) (st : Sched) : Sched :=
  let arm delay :=
    mkSched (sdb st) (timers st ++ [(now + node_timer_delay delay, campaign)])
            (map_set (campaign_key campaign) (scheduledCampaigns st)) in
  match c_sendAt campaign with
  | Some sendAt =>
      let delay := sendAt - now in
      if delay <=? 0 then
        mkSched (dispatchCampaign local_minutes push_outcome now campaign (sdb st))
                (timers st) (scheduledCampaigns st)
      else arm delay
  | None => arm 0   (* [new Date(undefined).getTime()] is NaN *)
  end.

(** A due timer fires at instant [at_]: its callback dispatches the
    captured campaign and deletes the registry entry. *)
Definition fire_timer (at_ : Z) (c : Campaign) (st : Sched) : Sched :=
  mkSched (dispatchCampaign local_minutes push_outcome at_ c (sdb st))
          (timers st) (map_delete (campaign_key c) (scheduledCampaigns st)).

(** [campaigns.find({ status: "scheduled", sendAt: { $gte: new Date() } })]. *)
Definition upcoming (now : Z) (c : Campaign) : bool :=
  match c_status c, c_sendAt c with
  | Scheduled, Some t => now <=? t
  | _, _ => false
  end.

(** [bootstrapCampaignScheduler()] at instant [now]. *)
Definition bootstrapCampaignScheduler (now : Z) (st : Sched) : Sched :=
  fold_left (fun acc c => scheduleCampaignDispatch now c acc)
            (filter (upcoming now) (campaigns (sdb st))) st.

(** A process restart keeps the database and loses every timer. *)
Definition restart (st : Sched) : Sched := mkSched (sdb st) [] [].

End Scheduler.

(* ------------------------------------------------------------------------ *)
(** ** Server: [POST /api/orders] *)

(** JSON values of the request body.  Arrays and objects (for instance
    [items]) are carried as their JSON text. *)
Inductive JVal :=
| JStr (s : string)
| JNum (n : Z)
| JBool (b : bool)
| JNull
| JCompound (text : string).

Definition JVal_eqb (a b : JVal) : bool :=
  match a, b with
  | JStr x, JStr y => String.eqb x y
  | JNum x, JNum y => Z.eqb x y
  | JBool x, JBool y => Bool.eqb x y
  | JNull, JNull => true
  | JCompound x, JCompound y => String.eqb x y
  | _, _ => false
  end.

(** JavaScript truthiness. *)
Definition truthy (v : JVal) : bool :=
  match v with
  | JStr s => negb (String.eqb s "")
  | JNum n => negb (Z.eqb n 0)
  | JBool b => b
  | JNull => false
  | JCompound _ => true
  end.

(** A JSON object / MongoDB document: its fields in order. *)
Definition Doc := list (string * JVal).

Definition get_field (k : string) (d : Doc) : option JVal :=
  match find (fun kv => String.eqb (fst kv) k) d with
  | Some (_, v) => Some v
  | None => None
  end.

(** Assign a field: overwrite it in place or append it. *)
Fixpoint set_field (k : string) (v : JVal) (d : Doc) : Doc :=
  match d with
  | [] => [(k, v)]
  | (k', v') :: r => if String.eqb k' k then (k, v) :: r else (k', v') :: set_field k v r
  end.

(** [{ $set: record }] on a document. *)
Definition apply_set (record : Doc) (d : Doc) : Doc :=
  fold_left (fun acc kv => set_field (fst kv) (snd kv) acc) record d.

Definition has_id (v : JVal) (d : Doc) : bool :=
  match get_field "id" d with Some w => JVal_eqb w v | None => false end.

(** [updateOne({ id: v }, { $set: record }, { upsert: true })]: update the
    first matching document, or insert [{ id: v }] with [record] set. *)
Fixpoint upsert_by_id (v : JVal) (record : Doc) (docs : list Doc) : list Doc :=
  match docs with
  | [] => [apply_set record [("id"%string, v)]]
  | d :: r => if has_id v d then apply_set record d :: r else d :: upsert_by_id v record r
  end.

(** The handler's response. *)
Inductive OrderResponse :=
| OrderProcessed (id : JVal) (status : string) (processedAt : Z)  (* 200 *)
| OrderRejected (error : string).                                  (* 400 *)

Definition http_status (r : OrderResponse) : Z :=
  match r with OrderProcessed _ _ _ => 200 | OrderRejected _ => 400 end.

Section Orders.

(** [new Date(payload.createdAt)] as stored by the driver. *)
Variable to_date : JVal -> JVal.

(** The handler at instant [now], with [crypto.randomUUID()] = [uuid]. *)
Definition post_orders (now : Z) (uuid : string) (payload : Doc) (orders : list Doc)
  : OrderResponse * list Doc :=
  match get_field "id" payload with
  | Some v =>
      if truthy v then
        let createdAt := match get_field "createdAt" payload with
                         | Some c => if truthy c then to_date c else JNum now
                         | None => JNum now
                         end in
        let record := set_field "correlationId" (JStr uuid)
                        (set_field "status" (JStr "processed")
                          (set_field "processedAt" (JNum now)
                            (set_field "createdAt" createdAt payload))) in
        (OrderProcessed v "processed" now, upsert_by_id v record orders)
      else (OrderRejected "Invalid order payload", orders)
  | None => (OrderRejected "Invalid order payload", orders)
  end.

End Orders.

(* ------------------------------------------------------------------------ *)
(** ** Auxiliary definitions used in statements *)

(** The message [processCheckoutQueue] broadcasts for an item it got past:
    expired, or written successfully. *)
Definition completion_event (now : Z) (item : QueueItem) : Msg :=
  if is_expired now item
  then CHECKOUT_SYNC_COMPLETE false (qpayload item) (Some "expired"%string)
  else CHECKOUT_SYNC_COMPLETE true (qpayload item) None.

(** A sequence of [QUEUE_CHECKOUT] enqueues, each at its own instant. *)
Fixpoint enqueue_all (ops : list (Z * Payload)) (s : SwState) : SwState :=
  match ops with
  | [] => s
  | (t, p) :: r => enqueue_all r (enqueueCheckout t p s)
  end.

(** Pairwise distinct elements, for a boolean equality. *)
Fixpoint nodupb {A} (eqb : A -> A -> bool) (l : list A) : bool :=
  match l with
  | [] => true
  | x :: r => negb (existsb (eqb x) r) && nodupb eqb r
  end.

(** The [id] fields of the stored orders. *)
Definition doc_ids (orders : list Doc) : list JVal :=
  flat_map (fun d => match get_field "id" d with Some v => [v] | None => [] end) orders.

(** Strings, numbers, booleans and null. *)
Definition is_scalar (v : JVal) : bool :=
  match v with JCompound _ => false | _ => true end.

(** Key order of the object store. *)
Definition id_lt (a b : QueueItem) : Prop := String.compare (qid a) (qid b) = Lt.

(** An item the replay pass gets past: expired, or written successfully. *)
Definition passes_item (fetch_order : Payload -> FetchResult) (now : Z) (x : QueueItem)
  : Prop :=
  is_expired now x = true \/ response_ok (fetch_order (qpayload x)) = true.

(** Where the pass stops: at the end, or at a non-expired item whose
    remote write fails. *)
Definition stops_at (fetch_order : Payload -> FetchResult) (now : Z)
  (rest : list QueueItem) : Prop :=
  match rest with
  | [] => True
  | it :: _ => is_expired now it = false /\ response_ok (fetch_order (qpayload it)) = false
  end.

Definition head_payload (rest : list QueueItem) : list Payload :=
  match rest with [] => [] | it :: _ => [qpayload it] end.

Definition not_expired (now : Z) (x : QueueItem) : bool := negb (is_expired now x).

(** What one replay pass does, given the split of the queue [pre ++ rest]
    at the first non-expired item whose write fails: every item of [pre]
    is passed (deleted, with its completion message), the bodies of the
    non-expired items of [pre] and then of the failing item are POSTed in
    queue order, and the pass ends by reporting [length rest] pending. *)
Definition replay_outcome (fetch_order : Payload -> FetchResult) (now : Z)
  (s : SwState) (pre rest : list QueueItem) : Prop :=
  let s' := processCheckoutQueue fetch_order now s in
  store s = pre ++ rest /\
  Forall (passes_item fetch_order now) pre /\ stops_at fetch_order now rest /\
  store s' = rest /\
  posted s' = posted s ++ map qpayload (filter (not_expired now) pre) ++ head_payload rest /\
  outbox s' = outbox s ++ map (completion_event now) pre ++ [CHECKOUT_SYNC_PENDING (length rest)].

(** What a replay pass does to an expired item [it] it reaches: no item
    with its id is left, the [reason = "expired"] message is broadcast,
    only non-expired items are POSTed (those of [pre], then from the next
    item on), and the threshold is 72 hours. *)
Definition expired_outcome (fetch_order : Payload -> FetchResult) (now : Z)
  (s : SwState) (pre : list QueueItem) (it : QueueItem) (post : list QueueItem) : Prop :=
  let s' := processCheckoutQueue fetch_order now s in
  (forall y, In y (store s') -> qid y <> qid it) /\
  In (CHECKOUT_SYNC_COMPLETE false (qpayload it) (Some "expired"%string)) (outbox s') /\
  (exists L, posted s' = posted s ++ map qpayload (filter (not_expired now) pre ++ L) /\
     Forall (fun x => is_expired now x = false) L /\
     (forall nx post', post = nx :: post' -> is_expired now nx = false ->
        exists L', L = nx :: L')) /\
  (forall x, is_expired now x = true <-> now - queuedAt x > 72 * 60 * 60 * 1000).

(** *** Concrete inputs *)

Definition pay (id : string) : Payload := mkPayload id "{}".

(** Orders A, B, C queued at instant 0; B's write fails. *)
Definition store_ABC : Store :=
  [mkItem "A" (pay "A") 0; mkItem "B" (pay "B") 0; mkItem "C" (pay "C") 0].

Definition fetch_B_fails (p : Payload) : FetchResult :=
  if String.eqb (order_id p) "B" then NetworkError else Response 201.

Definition hours (h : Z) : Z := h * 60 * 60 * 1000.

(** Two triggers: a [TRIGGER_CHECKOUT_SYNC] message starts a pass that
    reads the queue; a [sync] event tagged [checkout-sync] arrives while it
    is in progress and starts a second one. *)
Definition two_triggers : list Action :=
  [Deliver TRIGGER_CHECKOUT_SYNC; Resume 0; Deliver (SyncEvent "checkout-sync")].

(** Then the two passes take turns. *)
Definition interleave_passes : list Action := [Resume 1; Resume 0; Resume 1].

(** The string matches [/^\d{2}:\d{2}$/]. *)
Definition matches_HHMM (v : option string) : Prop :=
  exists h1 h2 m1 m2,
    v = Some (String h1 (String h2 (String ":" (String m1 (String m2 EmptyString))))) /\
    is_digit h1 = true /\ is_digit h2 = true /\ is_digit m1 = true /\ is_digit m2 = true.

(** The spec's quiet-hours rule, for bounds [start], [end_] and current
    local minutes [cur]. *)
Definition within_window (start end_ cur : Z) : Prop :=
  (start <= end_ /\ start <= cur < end_) \/ (start > end_ /\ (cur >= start \/ cur < end_)).

(* ------------------------------------------------------------------------ *)
(** ** Service worker: caches and the [fetch] listener *)

Definition VERSION : string := "flash-store-v3".
Definition APP_SHELL_CACHE : string := "flash-shell-" ++ VERSION.
Definition RUNTIME_CACHE : string := "flash-runtime-" ++ VERSION.
Definition IMAGE_CACHE : string := "flash-images-" ++ VERSION.
Definition APP_SHELL_ASSETS : list string :=
  ["/"; "/index.html"; "/manifest.json"; "/offline.html"]%string.

(** The second half of the file registers its own listeners with these. *)
Definition CACHE_NAME : string := "flash-store-v1".
Definition APP_SHELL : list string := ["/"; "/index.html"; "/manifest.json"]%string.

(** [haystack.includes(needle)]. *)
Fixpoint includes (needle haystack : string) : bool :=
  String.prefix needle haystack ||
  match haystack with
  | EmptyString => false
  | String _ r => includes needle r
  end.

(** A response: its status and its body. *)
Record HttpResp := mkResp { status : Z; body : string }.

(** [fetch(request)] for a URL: [None] when the promise rejects. *)
Definition Network := string -> option HttpResp.

(** A [Cache]: request URL to response, in insertion order. *)
Definition Cache := list (string * HttpResp).

Definition cache_match (url : string) (c : Cache) : option HttpResp :=
  option_map snd (find (fun kv => String.eqb (fst kv) url) c).

(** [cache.put(url, response)]: replace the entry for [url], or add it. *)
Fixpoint cache_put (url : string) (r : HttpResp) (c : Cache) : Cache :=
  match c with
  | [] => [(url, r)]
  | (u, r') :: rest => if String.eqb u url then (url, r) :: rest
                       else (u, r') :: cache_put url r rest
  end.

(** [CacheStorage]: named caches in creation order. *)
Definition CacheStorage := list (string * Cache).

Definition caches_keys (cs : CacheStorage) : list string := map fst cs.

(** [caches.open(name)]: creates the cache when absent. *)
Definition caches_open (name : string) (cs : CacheStorage) : CacheStorage :=
  if existsb (String.eqb name) (caches_keys cs) then cs else cs ++ [(name, [])].

Definition caches_get (name : string) (cs : CacheStorage) : Cache :=
  match find (fun kv => String.eqb (fst kv) name) cs with
  | Some (_, c) => c
  | None => []
  end.

(** [(await caches.open(name)).put(url, r)]. *)
Definition caches_put (name url : string) (r : HttpResp) (cs : CacheStorage)
  : CacheStorage :=
  map (fun kv => if String.eqb (fst kv) name then (fst kv, cache_put url r (snd kv)) else kv)
      (caches_open name cs).

(** [caches.match(url)]: the first cache, in creation order, holding it. *)
Fixpoint caches_match (url : string) (cs : CacheStorage) : option HttpResp :=
  match cs with
  | [] => None
  | (_, c) :: rest =>
      match cache_match url c with
      | Some r => Some r
      | None => caches_match url rest
      end
  end.

(** [caches.delete(name)]. *)
Definition caches_delete (name : string) (cs : CacheStorage) : CacheStorage :=
  filter (fun kv => negb (String.eqb (fst kv) name)) cs.

(** [cache.addAll(urls)]: every URL fetched with an ok response, then all
    stored; otherwise the promise rejects and nothing is stored. *)
Definition cache_addAll (net : Network) (name : string) (urls : list string)
  (cs : CacheStorage) : option CacheStorage :=
  let fetched := map (fun u => (u, net u)) urls in
  if forallb (fun ur => match snd ur with
                        | Some r => (200 <=? status r) && (status r <=? 299)
                        | None => false end) fetched
  then Some (fold_left (fun acc ur => match snd ur with
                                      | Some r => caches_put name (fst ur) r acc
                                      | None => acc end)
                       fetched (caches_open name cs))
  else None.

(** The two [install] listeners: [APP_SHELL_ASSETS] into [APP_SHELL_CACHE],
    and [APP_SHELL] into [CACHE_NAME].  Installation fails when either
    [waitUntil] promise rejects. *)
Definition install (net : Network) (cs : CacheStorage) : option CacheStorage :=
  match cache_addAll net APP_SHELL_CACHE APP_SHELL_ASSETS cs with
  | Some cs1 => cache_addAll net CACHE_NAME APP_SHELL cs1
  | None => None
  end.

(** The two [activate] listeners.  Both read [caches.keys()] before either
    deletes anything; the first deletes every name that does not include
    [VERSION], the second every name other than [CACHE_NAME].  Deletions
    by name commute, so they are applied one after the other. *)
Definition activate (cs : CacheStorage) : CacheStorage :=
  let names := caches_keys cs in
  fold_left (fun acc n => caches_delete n acc)
    (filter (fun n => negb (includes VERSION n)) names
     ++ filter (fun n => negb (String.eqb n CACHE_NAME)) names) cs.

(** A GET request as the first [fetch] listener reads it. *)
Record Request := mkRequest {
  r_method : string;
  r_url : string;
  r_navigate : bool;          (* request.mode === 'navigate' *)
  r_same_origin : bool;       (* url.origin === self.location.origin *)
  r_image : bool              (* request.destination === 'image' *)
}.

(** What the navigation branch falls back to: [/index.html], then [/],
    then [/offline.html], each looked up in every cache. *)
Definition navigate_fallback (cs : CacheStorage) : option HttpResp :=
  match caches_match "/index.html" cs with
  | Some r => Some r
  | None => match caches_match "/" cs with
            | Some r => Some r
            | None => caches_match "/offline.html" cs
            end
  end.

(** The navigation branch: network first; on a 200 a copy is stored as
    [/index.html] in the shell cache; on another status or a network
    error, the fallback. *)
Definition navigate (net : Network) (url : string) (cs : CacheStorage)
  : option HttpResp * CacheStorage :=
  match net url with
  | Some r =>
      if status r =? 200 then (Some r, caches_put APP_SHELL_CACHE "/index.html" r cs)
      else (navigate_fallback cs, cs)
  | None => (navigate_fallback cs, cs)
  end.

(** [cacheFirst(request, cacheName)]; [None] when the promise rejects. *)
Definition cacheFirst (net : Network) (url name : string) (cs : CacheStorage)
  : option HttpResp * CacheStorage :=
  let cs1 := caches_open name cs in
  match cache_match url (caches_get name cs1) with
  | Some cached => (Some cached, cs1)
  | None =>
      match net url with
      | Some r => (Some r, if status r =? 200 then caches_put name url r cs1 else cs1)
      | None => (None, cs1)
      end
  end.

(** [staleWhileRevalidate(request, cacheName)]: the value handed to
    [respondWith] ([cached || networkPromise]; [None] is [undefined]), and
    the storage once the background fetch has settled. *)
Definition staleWhileRevalidate (net : Network) (url name : string) (cs : CacheStorage)
  : option HttpResp * CacheStorage :=
  let cs1 := caches_open name cs in
  let cached := cache_match url (caches_get name cs1) in
  let '(fromNet, cs2) :=
    match net url with
    | Some r => (Some r, if status r =? 200 then caches_put name url r cs1 else cs1)
    | None => (cached, cs1)
    end in
  (match cached with Some c => Some c | None => fromNet end, cs2).

(** The first [fetch] listener: [None] when it does not call [respondWith]. *)
Definition handle_fetch (net : Network) (req : Request) (cs : CacheStorage)
  : option (option HttpResp) * CacheStorage :=
  if negb (String.eqb (r_method req) "GET") then (None, cs)
  else if r_navigate req then
    let '(r, cs') := navigate net (r_url req) cs in (Some r, cs')
  else if r_same_origin req && r_image req then
    let '(r, cs') := cacheFirst net (r_url req) IMAGE_CACHE cs in (Some r, cs')
  else if r_same_origin req && includes "/assets/" (r_url req) then
    let '(r, cs') := staleWhileRevalidate net (r_url req) RUNTIME_CACHE cs in (Some r, cs')
  else
    let '(r, cs') := staleWhileRevalidate net (r_url req) RUNTIME_CACHE cs in (Some r, cs').

(* ------------------------------------------------------------------------ *)
(** ** Campaign events: the worker's [deliverCampaignEvent] and the
    server's [POST /api/campaign-events] *)

(** [!!payload[k]]: a missing field is [undefined]. *)
Definition field_truthy (k : string) (d : Doc) : bool :=
  match get_field k d with Some v => truthy v | None => false end.

(** [deliverCampaignEvent(payload)]: the body POSTed to
    [/campaign-events] ([JSON.stringify(payload)]), or [None] when it
    returns [Promise.resolve()] without a request. *)
Definition deliverCampaignEvent (payload : Doc) : option Doc :=
  if negb (field_truthy "campaignId" payload) && negb (field_truthy "notificationId" payload)
  then None else Some payload.

(** An object literal field whose value may be [undefined];
    [JSON.stringify] leaves an [undefined] field out. *)
Definition with_field (k : string) (v : option JVal) (d : Doc) : Doc :=
  match v with Some x => d ++ [(k, x)] | None => d end.

(** [payload.data?.[k]]. *)
Definition data_field (k : string) (data : option Doc) : option JVal :=
  match data with Some d => get_field k d | None => None end.

(** The event the [push] listener hands to [deliverCampaignEvent]:
    [{ campaignId: payload.data?.campaignId, notificationId: ...,
    event: 'deliver', category: ..., metadata: { receivedAt } }]. *)
Definition deliver_event_doc (metadata : JVal) (data : option Doc) : Doc :=
  with_field "category" (data_field "category" data)
    (with_field "notificationId" (data_field "notificationId" data)
       (with_field "campaignId" (data_field "campaignId" data) [])
     ++ [("event"%string, JStr "deliver")])
  ++ [("metadata"%string, metadata)].

(** [x || null]. *)
Definition or_null (v : option JVal) : JVal :=
  match v with Some x => if truthy x then x else JNull | None => JNull end.

(** A field read from the body and inserted as is: the driver stores an
    [undefined] value as [null]. *)
Definition or_undefined (v : option JVal) : JVal :=
  match v with Some x => x | None => JNull end.

Section CampaignEventsEndpoint.

Variable to_date : JVal -> JVal.

(** [POST /api/campaign-events] at instant [now]: the status code and the
    [campaignEvents] collection. *)
Definition post_campaign_events (now : Z) (body : Doc) (events : list Doc) : Z * list Doc :=
  if negb (field_truthy "campaignId" body) && negb (field_truthy "notificationId" body)
  then (400, events)
  else (201, events ++
    [[("campaignId"%string, or_null (get_field "campaignId" body));
      ("notificationId"%string, or_null (get_field "notificationId" body));
      ("event"%string, or_undefined (get_field "event" body));
      ("category"%string, or_undefined (get_field "category" body));
      ("metadata"%string, or_undefined (get_field "metadata" body));
      ("occurredAt"%string,
        match get_field "occurredAt" body with
        | Some v => if truthy v then to_date v else JNum now
        | None => JNum now
        end)]]).

End CampaignEventsEndpoint.

(* ------------------------------------------------------------------------ *)
(** ** Server: subscription and preference endpoints *)

(** [req.body.subscription] as far as the handlers read it. *)
Record SubBody := mkSubBody {
  sb_endpoint : option string;
  sb_expirationTime : option Z     (* None: absent or null *)
}.

(** [!!s] for a string. *)
Definition str_truthy (s : option string) : bool :=
  match s with Some (String _ _) => true | _ => false end.

Section SubscriptionEndpoints.

(** [Intl.DateTimeFormat().resolvedOptions().timeZone] of the server. *)
Variable server_timezone : string.

Definition defaultPreferences : Preferences :=
  mkPrefs [("flashSales"%string, true); ("newArrivals"%string, true);
           ("priceDrops"%string, true); ("backInStock"%string, true)]
          (Some (mkQuiet false (Some "22:00"%string) (Some "08:00"%string)
                   (Some server_timezone)))
          None.

(** [updateOne({ endpoint }, { $set: finalSub }, { upsert: true })]: the
    first subscription with that endpoint gets the new fields, or the
    document is inserted. *)
Fixpoint upsert_subscription (sub : Subscription) (subs : list Subscription)
  : list Subscription :=
  match subs with
  | [] => [sub]
  | s :: r => if String.eqb (endpoint s) (endpoint sub) then sub :: r
              else s :: upsert_subscription sub r
  end.

(** [POST /api/save-subscription]: status, preferences in the reply, and
    the [subscriptions] collection. *)
Definition save_subscription (subscription : option SubBody) (prefs : option Preferences)
  (subs : list Subscription) : Z * option Preferences * list Subscription :=
  match subscription with
  | Some sb =>
      match sb_endpoint sb with
      | Some e =>
          if str_truthy (Some e) then
            let expiration := match sb_expirationTime sb with
                              | Some t => if t =? 0 then None else Some t
                              | None => None
                              end in
            let p := match prefs with Some p => p | None => defaultPreferences end in
            (201, Some p, upsert_subscription (mkSub e expiration (Some p)) subs)
          else (400, None, subs)
      | None => (400, None, subs)
      end
  | None => (400, None, subs)
  end.

End SubscriptionEndpoints.

(** [subscriptions.findOne({ endpoint })]. *)
Definition find_subscription (e : string) (subs : list Subscription) : option Subscription :=
  find (fun s => String.eqb (endpoint s) e) subs.

(** [GET /api/get-preferences?endpoint=e]: status and the preferences
    sent back. *)
Definition get_preferences (e : option string) (subs : list Subscription)
  : Z * option Preferences :=
  if negb (str_truthy e) then (400, None)
  else match e with
       | Some e' =>
           match find_subscription e' subs with
           | Some s => (200, preferences s)
           | None => (404, None)
           end
       | None => (400, None)
       end.

(** [updateOne({ endpoint }, { $set: { preferences } })]: the first match;
    [matchedCount] is whether there was one. *)
Fixpoint set_preferences (e : string) (p : Preferences) (subs : list Subscription)
  : bool * list Subscription :=
  match subs with
  | [] => (false, [])
  | s :: r =>
      if String.eqb (endpoint s) e then (true, mkSub (endpoint s) (expirationTime s) (Some p) :: r)
      else let '(m, r') := set_preferences e p r in (m, s :: r')
  end.

(** [POST /api/update-preferences]. *)
Definition update_preferences (e : option string) (prefs : option Preferences)
  (subs : list Subscription) : Z * list Subscription :=
  match e, prefs with
  | Some e', Some p =>
      if str_truthy e then
        let '(matched, subs') := set_preferences e' p subs in
        if matched then (200, subs') else (404, subs')
      else (400, subs)
  | _, _ => (400, subs)
  end.

(** [POST /api/delete-subscription]. *)
Definition delete_subscription (e : option string) (subs : list Subscription)
  : Z * list Subscription :=
  match e with
  | Some e' => let '(deleted, subs') := delete_one e' subs in
               if deleted then (200, subs') else (404, subs')
  | None => (404, subs)
  end.

(* ------------------------------------------------------------------------ *)
(** ** Server: rate limiting *)

(** A [rateLimit({ windowMs, max })] middleware (express-rate-limit):
    every request of a client is counted in that client's current window
    of [windowMs], and a request that takes the count above [max] is
    answered 429 without reaching the next handler.  [hits] is the number
    of the client's earlier requests counted in the current window. *)
Definition over_limit (max hits : nat) : bool := (max <=? hits)%nat.

(** [apiLimiter]: [windowMs: 15 * 60 * 1000, max: 1000], mounted on every
    route under [/api/] by [app.use("/api/", apiLimiter)], before the
    route's own middleware. *)
Definition apiLimiter_max : nat := 1000.

(** [authLimiter]: [windowMs: 60 * 1000, max: 10], on [/api/auth/login]
    only. *)
Definition authLimiter_max : nat := 10.

(* ------------------------------------------------------------------------ *)
(** ** Server: authentication *)

Section Auth.

(** [ADMIN_EMAIL], [ADMIN_PASSWORD] (environment or defaults), and the
    JSON web token library: [signToken({ email })] and [jwt.verify(token,
    JWT_SECRET)] ([None] when it throws), with the decoded [email]. *)
Variables (admin_email admin_password : string).
Variable sign : string -> string.
Variable verify : string -> option string.

(** [POST /api/auth/login] behind [apiLimiter] and [authLimiter], whose
    windows hold [api_hits] and [auth_hits] earlier requests of the
    client: status and token. *)
Definition login (api_hits auth_hits : nat) (email password : option string) : Z * option string :=
  if over_limit apiLimiter_max api_hits then (429, None)
  else if over_limit authLimiter_max auth_hits then (429, None)
  else
    match email, password with
    | Some em, Some pw =>
        if String.eqb em admin_email && String.eqb pw admin_password
        then (200, Some (sign em)) else (401, None)
    | _, _ => (401, None)
    end.

(** The [authenticate] middleware on the [Authorization] header: the
    decoded user, or [None] for the 401 answers. *)
Definition authenticate (authorization : option string) : option string :=
  let authHeader := match authorization with Some h => h | None => EmptyString end in
  if negb (String.prefix "Bearer " authHeader) then None
  else verify (substring (String.length "Bearer ") (String.length authHeader
                                                    - String.length "Bearer ") authHeader).

(** [GET /api/auth/me] behind [apiLimiter] and [authenticate]. *)
Definition auth_me (api_hits : nat) (authorization : option string) : Z * option string :=
  if over_limit apiLimiter_max api_hits then (429, None)
  else
    match authenticate authorization with
    | Some em => (200, Some em)
    | None => (401, None)
    end.

End Auth.

(* ------------------------------------------------------------------------ *)
(** ** Server: [POST /api/send-notification] *)

(** The fields of the request body the handler reads; [None] is
    [undefined].  [sendAt] is the instant it denotes, [None] when falsy. *)
Record NotifBody := mkNotifBody {
  nb_title : option string;
  nb_body : option string;
  nb_category : option string;
  nb_sendAt : option Z;
  nb_campaignId : option string;
  nb_notificationId : option string
}.

(** The campaign built from [descriptor]: [title || "⚡ New Alert!"],
    [body || "Check out the latest update!"], [campaignId] and
    [notificationId] defaulting to fresh UUIDs when undefined, and [_id].
    An immediate send never stores the descriptor, so its [status] is
    never read. *)
Definition notification_campaign (b : NotifBody) (category uuid_c uuid_n id : string)
  (sendAt : option Z) : Campaign :=
  mkCampaign (Some id)
    (match nb_title b with Some (String _ _ as t) => t | _ => "⚡ New Alert!"%string end)
    (match nb_body b with Some (String _ _ as t) => t | _ => "Check out the latest update!"%string end)
    category
    (match nb_campaignId b with Some c => Some c | None => Some uuid_c end)
    (match nb_notificationId b with Some n => Some n | None => Some uuid_n end)
    sendAt Scheduled None None.

Section SendNotification.

Variable local_minutes : string -> Z -> Z.
Variable push_outcome : string -> PushOutcome.
Variable verify : string -> option string.

(** [scheduleCampaignDispatch(doc)] as it returns to its caller.  With
    [delay <= 0] it only starts [dispatchCampaign(doc)] without awaiting
    it, and the first step of [dispatchCampaign] awaits
    [subscriptions.find(...)]: nothing is written yet.  Otherwise it arms
    the timer and returns, as [scheduleCampaignDispatch]. *)
Definition schedule_returned (now : Z) (c : Campaign) (st : Sched) : Sched :=
  match c_sendAt c with
  | Some sendAt =>
      if sendAt - now <=? 0 then st
      else scheduleCampaignDispatch local_minutes push_outcome now c st
  | None => scheduleCampaignDispatch local_minutes push_outcome now c st
  end.

(** The route at instant [now], behind [apiLimiter] ([api_hits] earlier
    requests of the client in its window) and [authenticate] (the
    [Authorization] header [authorization]); [uuid_c], [uuid_n] are the
    default [crypto.randomUUID()] values and [new_id] the [_id] of the
    campaign ([result.insertedId], or [crypto.randomUUID()] for an
    immediate send).  The result is the status, the state when the reply
    is sent, and the state once the dispatch the request started (awaited
    or not) has completed. *)
Definition send_notification (api_hits : nat) (authorization : option string) (now : Z)
  (uuid_c uuid_n new_id : string) (b : NotifBody) (st : Sched) : Z * Sched * Sched :=
  if over_limit apiLimiter_max api_hits then (429, st, st)
  else
    match authenticate verify authorization with
    | None => (401, st, st)
    | Some _ =>
        match nb_category b with
        | Some cat =>
            if str_truthy (Some cat) then
              match nb_sendAt b with
              | Some t =>
                  let doc := notification_campaign b cat uuid_c uuid_n new_id (Some t) in
                  let db := sdb st in
                  let st1 := mkSched (mkDb (subscriptions db) (campaigns db ++ [doc])
                                           (campaignEvents db) (pushes db))
                                     (timers st) (scheduledCampaigns st) in
                  (202, schedule_returned now doc st1,
                   scheduleCampaignDispatch local_minutes push_outcome now doc st1)
              | None =>
                  let c := notification_campaign b cat uuid_c uuid_n new_id None in
                  let st' := mkSched (dispatchCampaign local_minutes push_outcome now c (sdb st))
                                     (timers st) (scheduledCampaigns st) in
                  (200, st', st')
              end
            else (400, st, st)
        | None => (400, st, st)
        end
    end.

End SendNotification.

(* ------------------------------------------------------------------------ *)
(** ** Server: [GET /api/sale-status], [POST /api/start-sale], [POST /api/end-sale] *)

(** [currentSale]: [{ isActive, discount }]. *)
Record Sale := mkSale { isActive : bool; sale_discount : Z }.

(** [let currentSale = { isActive: false, discount: 0 }]. *)
Definition initialSale : Sale := mkSale false 0.

(** The server state these routes touch: [currentSale], the collections,
    and the [campaignEvents] documents inserted by [start-sale].  Those
    documents are [{ campaignId: "flash-sale", notificationId, event:
    "deliver", category: "flashSales", metadata: { audience } }] (no
    [delivered] count); they are kept as (notificationId, audience). *)
Record SaleSrv := mkSaleSrv {
  currentSale : Sale;
  sale_db : Db;
  sale_events : list (string * nat)
}.

Section SaleEndpoints.

Variable local_minutes : string -> Z -> Z.
Variable push_outcome : string -> PushOutcome.
Variable verify : string -> option string.
(** The text of a number in a template literal ([`${discount}`]). *)
Variable show_number : Z -> string.

(** The payload pushed by [start-sale], as the [Campaign] value it is
    built from: title, body, category, campaignId and notificationId (no
    [_id]; it is never stored). *)
Definition flash_sale_payload (discount : Z) (notificationId : string) : Campaign :=
  mkCampaign None ("⚡ FLASH SALE: " ++ show_number discount ++ "% OFF!")
    ("Everything is " ++ show_number discount ++ "% off for a limited time. Shop now!")
    "flashSales" (Some "flash-sale"%string) (Some notificationId) None Scheduled None None.

(** [GET /api/sale-status] behind [apiLimiter] ([api_hits] earlier
    requests of the client in its window): status and the [currentSale]
    sent, if any. *)
Definition sale_status (api_hits : nat) (s : SaleSrv) : Z * option Sale :=
  if over_limit apiLimiter_max api_hits then (429, None) else (200, Some (currentSale s)).

(** [POST /api/start-sale] behind [apiLimiter] ([api_hits] earlier
    requests of the client in its window) and [authenticate], at instant
    [now]; [discount] is [req.body.discount] and [uuid] the value of
    [crypto.randomUUID()]. *)
Definition start_sale (api_hits : nat) (now : Z) (authorization : option string)
  (discount : option JVal) (uuid : string) (s : SaleSrv) : Z * SaleSrv :=
  if over_limit apiLimiter_max api_hits then (429, s) else
  match authenticate verify authorization with
  | None => (401, s)
  | Some _ =>
      match discount with
      | Some (JNum d) =>
          if (d <=? 0) || (100 <? d) then (400, s)
          else
            let sale := mkSale true d in
            let audience := filter (opted_in "flashSales") (subscriptions (sale_db s)) in
            let eligible := filterEligibleSubscriptions local_minutes audience "flashSales" now in
            let '(_, db1) := send_all push_outcome eligible (flash_sale_payload d uuid) (sale_db s) in
            (200, mkSaleSrv sale db1 (sale_events s ++ [(uuid, length eligible)]))
      | _ => (400, s)
      end
  end.

(** [POST /api/end-sale] behind [apiLimiter] and [authenticate]. *)
Definition end_sale (api_hits : nat) (authorization : option string) (s : SaleSrv) : Z * SaleSrv :=
  if over_limit apiLimiter_max api_hits then (429, s) else
  match authenticate verify authorization with
  | None => (401, s)
  | Some _ => (200, mkSaleSrv (mkSale false 0) (sale_db s) (sale_events s))
  end.

End SaleEndpoints.

(* ------------------------------------------------------------------------ *)
(** ** Server: [POST /api/send-welcome-notification] *)

(** The welcome payload, as a [Campaign] value: title and body only (its
    [data] is [{ url: "/" }], with no category, campaignId or
    notificationId; the category is left empty). *)
Definition welcome_payload : Campaign :=
  mkCampaign None "🎉 Welcome to FlashStore!" "You're now subscribed to the latest deals."
    "" None None None Scheduled None None.

(** The route behind [apiLimiter] ([api_hits] earlier requests of the
    client in its window); [req.body.subscription] is [subscription]; the
    [try]/[catch] around [await sendWebPush(...)] answers 500 when it
    throws. *)
Definition send_welcome_notification (push_outcome : string -> PushOutcome) (api_hits : nat)
  (subscription : option SubBody) (db : Db) : Z * Db :=
  if over_limit apiLimiter_max api_hits then (429, db) else
  match subscription with
  | Some b =>
      match sb_endpoint b with
      | Some e =>
          if str_truthy (Some e) then
            let '(_, db1) := sendWebPush push_outcome (mkSub e (sb_expirationTime b) None)
                               welcome_payload db in
            (200, db1)
          else (400, db)
      | None => (400, db)
      end
  | None => (400, db)
  end.

(* ------------------------------------------------------------------------ *)
(** ** Service worker: the [notificationclick] and [notificationclose] listeners *)

(** What a listener does besides [event.notification.close()]: open a
    window, focus a window client (by its URL), or POST an event to
    [/campaign-events]. *)
Inductive ClickEffect :=
| OpenWindow (url : string)
| FocusClient (url : string)
| SendEvent (payload : Doc).

(** [{ campaignId: data?.campaignId, notificationId: data?.notificationId,
    event, category: data?.category }]. *)
Definition click_event_doc (ev : string) (data : option Doc) : Doc :=
  with_field "category" (data_field "category" data)
    (with_field "notificationId" (data_field "notificationId" data)
       (with_field "campaignId" (data_field "campaignId" data) [])
     ++ [("event"%string, JStr ev)]).

(** [deliverCampaignEvent(payload)] as an effect. *)
Definition deliver_effects (payload : Doc) : list ClickEffect :=
  match deliverCampaignEvent payload with Some b => [SendEvent b] | None => [] end.

Section NotificationListeners.

(** [new URL(raw, base).href] ([None] when it throws), [self.location.origin],
    and whether [clients.openWindow] exists. *)
Variable resolve : JVal -> string -> option string.
Variable origin : string.
Variable can_open : bool.

(** The first [notificationclick] listener, for [event.action] and
    [event.notification.data]. *)
Definition notificationclick_1 (action : string) (data : option Doc) : list ClickEffect :=
  let rawUrl := match data_field "url" data with
                | Some v => if truthy v then v else JStr "/"%string
                | None => JStr "/"%string
                end in
  let targetUrl := match resolve rawUrl origin with
                   | Some href => href
                   | None => (origin ++ "/")%string
                   end in
  if String.eqb action "dismiss" then deliver_effects (click_event_doc "dismiss" data)
  else (if can_open then [OpenWindow targetUrl] else [])
       ++ deliver_effects (click_event_doc "click" data).

(** The second [notificationclick] listener; [windowClients] are the URLs
    of [clients.matchAll({ type: 'window', includeUncontrolled: true })]. *)
Definition notificationclick_2 (action : string) (windowClients : list string)
  : list ClickEffect :=
  if String.eqb action "close" then []
  else
    match find (fun u => includes "localhost:3000/" u && negb (includes "/admin" u))
               windowClients with
    | Some u => [FocusClient u]
    | None => if can_open then [OpenWindow ((origin ++ "/")%string)] else []
    end.

(** Both listeners run on every click, in registration order. *)
Definition notificationclick (action : string) (data : option Doc) (windowClients : list string)
  : list ClickEffect * list ClickEffect :=
  (notificationclick_1 action data, notificationclick_2 action windowClients).

End NotificationListeners.

(** The [notificationclose] listener. *)
Definition notificationclose (data : option Doc) : list ClickEffect :=
  deliver_effects (click_event_doc "dismiss" data).

(* ------------------------------------------------------------------------ *)
(** ** Auxiliary definitions for the server *)

(** The campaigns [bootstrapCampaignScheduler] arms a timer for, and the
    instant that timer fires. *)
Definition rearmed (now : Z) (c : Campaign) : bool :=
  match c_status c, c_sendAt c with
  | Scheduled, Some t => now <? t
  | _, _ => false
  end.

Definition timer_due (now : Z) (c : Campaign) : Z :=
  match c_sendAt c with
  | Some t => now + node_timer_delay (t - now)
  | None => now + 1
  end.

(** A failed push that makes [sendWebPush] delete the subscription. *)
Definition push_gone (o : PushOutcome) : bool :=
  match o with PushFailed code => (code =? 410) || (code =? 404) | PushDelivered => false end.

(** The two-digit decimal text of [n < 100], and the text ["HH:MM"]. *)
Definition two_digits (n : nat) : string :=
  String (ascii_of_nat (48 + n / 10)) (String (ascii_of_nat (48 + n mod 10)) EmptyString).

Definition hhmm (h m : nat) : string := two_digits h ++ ":" ++ two_digits m.

(** The campaigns [scheduleCampaignDispatch] arms a timer for at [now]
    (the others it dispatches at once). *)
Definition armed_later (now : Z) (c : Campaign) : bool :=
  match c_sendAt c with Some t => negb (t - now <=? 0) | None => true end.

(** The stored subscriptions left after the sends to [l]: for each
    subscription of [l] whose push was answered 410 or 404, in turn, the
    first stored subscription with its endpoint is deleted.  (Deleting the
    first match of two endpoints gives the same list in either order.) *)
Definition delete_gone (po : string -> PushOutcome) (l : list Subscription)
  (subs : list Subscription) : list Subscription :=
  fold_left (fun acc e => if push_gone (po (endpoint e)) then snd (delete_one (endpoint e) acc) else acc)
    l subs.

(** A push the push service accepted: [sendWebPush] returns
    [{ success: true }]. *)
Definition delivered (o : PushOutcome) : bool :=
  match o with PushDelivered => true | PushFailed _ => false end.

(* ------------------------------------------------------------------------ *)
(** * Proofs *)

(** ** Key order of the object store *)

Lemma compare_eq_iff' (a b : string) : String.compare a b = Eq <-> a = b.
Proof. exact (String_as_OT.cmp_eq a b). Qed.

Lemma compare_lt_trans (a b c : string) :
  String.compare a b = Lt -> String.compare b c = Lt -> String.compare a c = Lt.
Proof.
  intros H1 H2.
  apply (proj2 (String_as_OT.cmp_lt a c)).
  apply String_as_OT.lt_trans with b; apply String_as_OT.cmp_lt; assumption.
Qed.

Lemma compare_gt_lt (a b : string) : String.compare a b = Gt -> String.compare b a = Lt.
Proof.
  intros H. pose proof (String_as_OT.cmp_antisym a b) as A.
  unfold String_as_OT.cmp in A. rewrite H in A.
  destruct (String.compare b a); simpl in A; congruence.
Qed.

Lemma compare_lt_neq (a b : string) : String.compare a b = Lt -> a <> b.
Proof.
  intros H E; subst. rewrite (proj2 (compare_eq_iff' b b) eq_refl) in H. discriminate.
Qed.

Lemma id_lt_trans : forall x y z, id_lt x y -> id_lt y z -> id_lt x z.
Proof. unfold id_lt; intros x y z; apply compare_lt_trans. Qed.

Lemma ids_sorted_Sorted (st : Store) : ids_sorted st = true <-> Sorted id_lt st.
Proof.
  induction st as [|x r IH]; simpl.
  - split; constructor.
  - destruct r as [|y r'].
    + split; intros; [repeat constructor | reflexivity].
    + destruct (String.compare (qid x) (qid y)) eqn:E.
      * split; [discriminate|]. intros H. inversion H; subst.
        inversion H3; subst. unfold id_lt in H1. congruence.
      * split; intros H.
        -- constructor; [apply IH; exact H | constructor; exact E].
        -- inversion H; subst. apply IH; assumption.
      * split; [discriminate|]. intros H. inversion H; subst.
        inversion H3; subst. unfold id_lt in H1. congruence.
Qed.

Lemma ids_sorted_strongly (st : Store) :
  ids_sorted st = true -> StronglySorted id_lt st.
Proof.
  intros H. apply Sorted_StronglySorted; [exact id_lt_trans|].
  apply ids_sorted_Sorted; exact H.
Qed.

Lemma store_put_in (it y : QueueItem) (st : Store) :
  In y (store_put it st) -> y = it \/ In y st.
Proof.
  induction st as [|x r IH]; simpl; intros H.
  - destruct H as [H|[]]; left; congruence.
  - destruct (String.compare (qid it) (qid x)); simpl in H.
    + destruct H as [H|H]; [left; congruence | right; right; exact H].
    + destruct H as [H|[H|H]]; [left; congruence | right; left; exact H | right; right; exact H].
    + destruct H as [H|H]; [right; left; exact H|].
      destruct (IH H); [left | right; right]; assumption.
Qed.

Lemma store_put_strongly (it : QueueItem) (st : Store) :
  StronglySorted id_lt st -> StronglySorted id_lt (store_put it st).
Proof.
  induction st as [|x r IH]; simpl; intros H.
  - repeat constructor.
  - inversion H as [|? ? Hr Hall]; subst.
    destruct (String.compare (qid it) (qid x)) eqn:E.
    + apply compare_eq_iff' in E. constructor; [exact Hr|].
      rewrite Forall_forall in *. intros y Hy. unfold id_lt. rewrite E. apply Hall; exact Hy.
    + constructor; [exact H|]. constructor; [exact E|].
      rewrite Forall_forall in *. intros y Hy. eapply id_lt_trans; [exact E | apply Hall; exact Hy].
    + constructor; [apply IH; exact Hr|].
      rewrite Forall_forall in *. intros y Hy.
      destruct (store_put_in it y r Hy) as [->|Hy'].
      * unfold id_lt. apply compare_gt_lt; exact E.
      * apply Hall; exact Hy'.
Qed.

Lemma strongly_ids_sorted (st : Store) :
  StronglySorted id_lt st -> ids_sorted st = true.
Proof. intros H. apply ids_sorted_Sorted, StronglySorted_Sorted; exact H. Qed.

Lemma store_put_sorted (it : QueueItem) (st : Store) :
  ids_sorted st = true -> ids_sorted (store_put it st) = true.
Proof.
  intros H. apply strongly_ids_sorted, store_put_strongly, ids_sorted_strongly; exact H.
Qed.

Lemma strongly_nodup (st : Store) : StronglySorted id_lt st -> NoDup (map qid st).
Proof.
  induction st as [|x r IH]; simpl; intros H; constructor.
  - inversion H as [|? ? Hr Hall]; subst. intros Hin.
    apply in_map_iff in Hin. destruct Hin as [y [Ey Hy]].
    rewrite Forall_forall in Hall. specialize (Hall y Hy). unfold id_lt in Hall.
    apply compare_lt_neq in Hall. congruence.
  - inversion H; subst. apply IH; assumption.
Qed.

Lemma ids_sorted_nodup (st : Store) : ids_sorted st = true -> NoDup (map qid st).
Proof. intros H. apply strongly_nodup, ids_sorted_strongly; exact H. Qed.

Lemma filter_none (k : string) (st : Store) :
  (forall y, In y st -> qid y <> k) ->
  filter (fun x => String.eqb (qid x) k) st = [].
Proof.
  induction st as [|x r IH]; simpl; intros H; [reflexivity|].
  destruct (String.eqb_spec (qid x) k) as [E|E].
  - exfalso. apply (H x); [left; reflexivity | exact E].
  - apply IH. intros y Hy. apply H. right; exact Hy.
Qed.

Lemma store_put_lookup (it : QueueItem) (st : Store) :
  StronglySorted id_lt st ->
  filter (fun x => String.eqb (qid x) (qid it)) (store_put it st) = [it].
Proof.
  induction st as [|x r IH]; simpl; intros H.
  - rewrite String.eqb_refl. reflexivity.
  - inversion H as [|? ? Hr Hall]; subst. rewrite Forall_forall in Hall.
    destruct (String.compare (qid it) (qid x)) eqn:E; simpl; rewrite ?String.eqb_refl.
    + apply compare_eq_iff' in E. f_equal. apply filter_none.
      intros y Hy. specialize (Hall y Hy). unfold id_lt in Hall. rewrite <- E in Hall.
      apply compare_lt_neq in Hall. congruence.
    + pose proof (filter_none (qid it) (x :: r)) as F. simpl in F. rewrite F; [reflexivity|].
      intros y [<-|Hy].
      * apply compare_lt_neq in E. congruence.
      * pose proof (compare_lt_trans _ _ _ E (Hall y Hy)) as L.
        apply compare_lt_neq in L. congruence.
    + destruct (String.eqb_spec (qid x) (qid it)) as [E'|E'].
      * rewrite E', (proj2 (compare_eq_iff' _ _) eq_refl) in E. discriminate.
      * apply IH; exact Hr.
Qed.

(** ** The replay pass *)

Section ReplayProofs.

Variable fetch_order : Payload -> FetchResult.
Variable now : Z.

Lemma replay_items_effect : forall q s, exists pre rest,
  q = pre ++ rest /\ Forall (passes_item fetch_order now) pre /\ stops_at fetch_order now rest /\
  store (replay_items fetch_order now q s)
    = fold_left (fun st x => store_delete (qid x) st) pre (store s) /\
  posted (replay_items fetch_order now q s)
    = posted s ++ map qpayload (filter (not_expired now) pre) ++ head_payload rest /\
  outbox (replay_items fetch_order now q s) = outbox s ++ map (completion_event now) pre.
Proof.
  induction q as [|x r IH]; intros s.
  - exists [], []. simpl. rewrite !app_nil_r. repeat split; constructor.
  - simpl. unfold completion_event, not_expired.
    destruct (is_expired now x) eqn:Ex.
    + destruct (IH (broadcastMessage
                      (CHECKOUT_SYNC_COMPLETE false (qpayload x) (Some "expired"%string))
                      (deleteQueuedCheckout (qid x) s)))
        as (pre & rest & E & F & St & Hs & Hp & Ho).
      exists (x :: pre), rest. simpl. rewrite Ex. simpl.
      repeat split.
      * rewrite E; reflexivity.
      * constructor; [left; exact Ex | exact F].
      * exact St.
      * rewrite Hs. reflexivity.
      * rewrite Hp. reflexivity.
      * rewrite Ho. simpl. rewrite <- app_assoc. reflexivity.
    + destruct (response_ok (fetch_order (qpayload x))) eqn:Ok.
      * destruct (IH (broadcastMessage (CHECKOUT_SYNC_COMPLETE true (qpayload x) None)
                        (deleteQueuedCheckout (qid x) (post_order (qpayload x) s))))
          as (pre & rest & E & F & St & Hs & Hp & Ho).
        exists (x :: pre), rest. simpl. rewrite Ex. simpl.
        repeat split.
        -- rewrite E; reflexivity.
        -- constructor; [right; exact Ok | exact F].
        -- exact St.
        -- rewrite Hs. reflexivity.
        -- rewrite Hp. simpl. rewrite <- app_assoc. reflexivity.
        -- rewrite Ho. simpl. rewrite <- app_assoc. reflexivity.
      * exists [], (x :: r). simpl. rewrite app_nil_r. repeat split.
        -- constructor.
        -- exact Ex.
        -- exact Ok.
Qed.

Lemma store_delete_absent (k : string) (l : Store) :
  (forall y, In y l -> qid y <> k) -> store_delete k l = l.
Proof.
  unfold store_delete. induction l as [|y r IH]; simpl; intros H; [reflexivity|].
  destruct (String.eqb_spec (qid y) k) as [E|E].
  - exfalso. apply (H y); [left; reflexivity | exact E].
  - simpl. f_equal. apply IH. intros z Hz. apply H. right; exact Hz.
Qed.

Lemma delete_prefix (pre rest : Store) :
  NoDup (map qid (pre ++ rest)) ->
  fold_left (fun st x => store_delete (qid x) st) pre (pre ++ rest) = rest.
Proof.
  induction pre as [|x pre IH]; simpl; intros Hn; [reflexivity|].
  inversion Hn as [|? ? Hx Hn']; subst.
  unfold store_delete at 2. simpl. rewrite String.eqb_refl. simpl.
  fold (store_delete (qid x) (pre ++ rest)).
  rewrite store_delete_absent.
  - apply IH; exact Hn'.
  - intros y Hy E. apply Hx. rewrite <- E. apply in_map; exact Hy.
Qed.

Lemma replay_items_app (pre r : list QueueItem) (s : SwState) :
  Forall (passes_item fetch_order now) pre ->
  replay_items fetch_order now (pre ++ r) s
    = replay_items fetch_order now r (replay_items fetch_order now pre s).
Proof.
  revert s. induction pre as [|x pre IH]; intros s F; simpl; [reflexivity|].
  inversion F as [|? ? Hx F']; subst.
  destruct (is_expired now x) eqn:Ex; [apply IH; exact F'|].
  destruct Hx as [Hx|Hx]; [congruence|]. rewrite Hx. apply IH; exact F'.
Qed.

Lemma replay_items_store_incl (q : list QueueItem) (s : SwState) (y : QueueItem) :
  In y (store (replay_items fetch_order now q s)) -> In y (store s).
Proof.
  revert s. induction q as [|x r IH]; intros s H; simpl in H; [exact H|].
  destruct (is_expired now x).
  - apply IH in H. simpl in H. unfold store_delete in H.
    apply filter_In in H. apply H.
  - destruct (response_ok (fetch_order (qpayload x))).
    + apply IH in H. simpl in H. unfold store_delete in H.
      apply filter_In in H. apply H.
    + exact H.
Qed.

Lemma replay_items_outbox_grows (q : list QueueItem) (s : SwState) :
  exists m, outbox (replay_items fetch_order now q s) = outbox s ++ m.
Proof.
  destruct (replay_items_effect q s) as (pre & rest & _ & _ & _ & _ & _ & Ho).
  eexists; exact Ho.
Qed.

Lemma replay_items_posted (q : list QueueItem) (s : SwState) :
  exists L, posted (replay_items fetch_order now q s) = posted s ++ map qpayload L /\
    (exists L', L ++ L' = filter (not_expired now) q) /\
    (forall nx q', q = nx :: q' -> is_expired now nx = false -> exists L'', L = nx :: L'').
Proof.
  destruct (replay_items_effect q s) as (pre & rest & E & F & St & _ & Hp & _).
  exists (filter (not_expired now) pre ++ match rest with [] => [] | it :: _ => [it] end).
  repeat split.
  - rewrite Hp, map_app. destruct rest; reflexivity.
  - subst q. rewrite filter_app. destruct rest as [|it rest'].
    + exists []. rewrite !app_nil_r. reflexivity.
    + unfold stops_at in St. destruct St as [Ex _].
      assert (Ne : not_expired now it = true) by (unfold not_expired; rewrite Ex; reflexivity).
      cbn [filter]. rewrite Ne.
      exists (filter (not_expired now) rest'). rewrite <- app_assoc. reflexivity.
  - intros nx q' Eq Ex. subst q.
    assert (Ne : not_expired now nx = true) by (unfold not_expired; rewrite Ex; reflexivity).
    destruct pre as [|x pre'].
    + simpl in Eq. subst rest. simpl. eexists; reflexivity.
    + simpl in Eq. injection Eq as -> _. cbn [filter app]. rewrite Ne.
      eexists; reflexivity.
Qed.

End ReplayProofs.

Lemma enqueue_all_sorted (ops : list (Z * Payload)) (s : SwState) :
  ids_sorted (store s) = true ->
  ids_sorted (store (enqueue_all ops s)) = true /\ posted (enqueue_all ops s) = posted s.
Proof.
  revert s. induction ops as [|[t p] r IH]; intros s H; simpl; [split; auto|].
  destruct (IH (enqueueCheckout t p s)) as [H1 H2].
  - simpl. apply store_put_sorted; exact H.
  - split; [exact H1 | rewrite H2; reflexivity].
Qed.

Lemma process_nonempty (fetch_order : Payload -> FetchResult) (now : Z) (s : SwState) :
  store s <> [] ->
  processCheckoutQueue fetch_order now s
  = sendQueueStatus (replay_items fetch_order now (store s) s).
Proof.
  intros H. unfold processCheckoutQueue, getAllQueuedCheckouts, store_getAll.
  destruct (store s) eqn:E; [contradiction | reflexivity].
Qed.

Lemma replay_items_all_pass (fetch_order : Payload -> FetchResult) (now : Z)
  (pre : list QueueItem) (s : SwState) :
  Forall (passes_item fetch_order now) pre ->
  posted (replay_items fetch_order now pre s)
  = posted s ++ map qpayload (filter (not_expired now) pre).
Proof.
  revert s. induction pre as [|x pre IH]; intros s F; simpl.
  - rewrite app_nil_r. reflexivity.
  - inversion F as [|? ? Hx F']; subst. unfold not_expired at 1.
    destruct (is_expired now x) eqn:Ex; simpl.
    + rewrite IH by exact F'. reflexivity.
    + destruct Hx as [Hx|Hx]; [congruence|]. rewrite Hx.
      rewrite IH by exact F'. simpl. rewrite <- app_assoc. reflexivity.
Qed.

(** ** C6: enqueue is an upsert on [id] *)

(** C6. Enqueuing two payloads with the same [id] leaves exactly one
    stored item for that id, carrying the second payload (and its enqueue
    time); after each enqueue the ids in the store are pairwise distinct. *)
Theorem enqueue_upsert_last_write_wins :
  forall (now1 now2 : Z) (p1 p2 : Payload) (s : SwState),
  ids_sorted (store s) = true ->
  order_id p1 = order_id p2 ->
  let s1 := enqueueCheckout now1 p1 s in
  let s2 := enqueueCheckout now2 p2 s1 in
  filter (fun x => String.eqb (qid x) (order_id p2)) (store s2)
    = [mkItem (order_id p2) p2 now2] /\
  NoDup (map qid (store s1)) /\ NoDup (map qid (store s2)).
Proof.
  intros now1 now2 p1 p2 s Hs _ s1 s2.
  assert (H1 : ids_sorted (store s1) = true) by (apply store_put_sorted; exact Hs).
  assert (H2 : ids_sorted (store s2) = true) by (apply store_put_sorted; exact H1).
  split; [|split; apply ids_sorted_nodup; assumption].
  unfold s2, enqueueCheckout. simpl.
  apply (store_put_lookup (mkItem (order_id p2) p2 now2)).
  apply ids_sorted_strongly; exact H1.
Qed.

Lemma enqueue_upsert_last_write_wins_witness :
  ids_sorted (store (mkSw [] [] [])) = true /\
  order_id (mkPayload "order-1" "{total:1}") = order_id (mkPayload "order-1" "{total:2}") /\
  (let s1 := enqueueCheckout 10 (mkPayload "order-1" "{total:1}") (mkSw [] [] []) in
   let s2 := enqueueCheckout 20 (mkPayload "order-1" "{total:2}") s1 in
   filter (fun x => String.eqb (qid x) (order_id (mkPayload "order-1" "{total:2}"))) (store s2)
     = [mkItem (order_id (mkPayload "order-1" "{total:2}")) (mkPayload "order-1" "{total:2}") 20] /\
   NoDup (map qid (store s1)) /\ NoDup (map qid (store s2))).
Proof.
  split; [reflexivity|]. split; [reflexivity|].
  apply enqueue_upsert_last_write_wins; reflexivity.
Defined.

(** ** C7: [listAll] order *)

(** C7 (counterexample). Enqueue [order-b] at instant 1 and then
    [order-a] at instant 2: [getAllQueuedCheckouts] returns them in key
    order, so the queuedAt sequence is [2; 1], and a replay pass POSTs
    [order-a] (enqueued later) before [order-b]. *)
Lemma listAll_not_by_queuedAt :
  let s := enqueue_all [(1, pay "order-b"); (2, pay "order-a")] (mkSw [] [] []) in
  map queuedAt (getAllQueuedCheckouts s) = [2; 1] /\
  posted (processCheckoutQueue (fun _ => Response 200) 3 s) = [pay "order-a"; pay "order-b"].
Proof. split; reflexivity. Qed.

(** C7 (amended). For every sequence of enqueues into an empty store,
    [getAllQueuedCheckouts] returns the items in strictly ascending [id]
    (key) order, and a replay pass POSTs, in that order, a prefix of the
    non-expired items. *)
Theorem listAll_key_order :
  forall (ops : list (Z * Payload)) (o : list Msg) (p : list Payload)
         (fetch_order : Payload -> FetchResult) (now : Z),
  let s := enqueue_all ops (mkSw [] o p) in
  ids_sorted (getAllQueuedCheckouts s) = true /\
  exists L L', posted (processCheckoutQueue fetch_order now s) = p ++ map qpayload L /\
    L ++ L' = filter (not_expired now) (getAllQueuedCheckouts s).
Proof.
  intros ops o p fetch_order now s.
  destruct (enqueue_all_sorted ops (mkSw [] o p) eq_refl) as [Hs Hp].
  fold s in Hs, Hp. simpl in Hp.
  split; [exact Hs|].
  unfold processCheckoutQueue, getAllQueuedCheckouts, store_getAll.
  destruct (store s) as [|x r] eqn:E.
  - exists [], []. simpl. rewrite Hp, app_nil_r. split; reflexivity.
  - destruct (replay_items_posted fetch_order now (x :: r) s) as (L & HL & (L' & HL') & _).
    exists L, L'. split; [|exact HL']. unfold sendQueueStatus, broadcastMessage.
    cbn [posted]. rewrite HL, Hp. reflexivity.
Qed.

(** ** C1: one replay pass, in order, stopping at the first failure *)

(** C1. On a non-empty queue, one replay pass splits the queue as
    [pre ++ rest] where [rest] is empty or starts with the first
    non-expired item whose remote write fails (network error or
    non-2xx): the items of [pre] are deleted, each with its completion
    message (success with the original payload for a successful write),
    the writes are attempted in queue order and none after the failing
    item, and the pass ends with [CHECKOUT_SYNC_PENDING] equal to the
    length of what is left, [rest]. *)
Theorem replay_pass_in_order_early_stop :
  forall (fetch_order : Payload -> FetchResult) (now : Z) (s : SwState),
  ids_sorted (store s) = true ->
  store s <> [] ->
  exists pre rest, replay_outcome fetch_order now s pre rest.
Proof.
  intros fetch_order now s Hs Hne.
  destruct (replay_items_effect fetch_order now (store s) s)
    as (pre & rest & E & F & St & Hst & Hp & Ho).
  exists pre, rest. unfold replay_outcome.
  rewrite (process_nonempty fetch_order now s Hne).
  assert (Hrest : fold_left (fun st x => store_delete (qid x) st) pre (store s) = rest).
  { rewrite E. apply delete_prefix. rewrite <- E. apply ids_sorted_nodup; exact Hs. }
  unfold sendQueueStatus, broadcastMessage, getAllQueuedCheckouts, store_getAll.
  cbn [store posted outbox].
  rewrite Hst, Hrest, Hp, Ho, <- app_assoc.
  repeat split; assumption.
Qed.

Lemma replay_pass_in_order_early_stop_witness :
  ids_sorted store_ABC = true /\ store_ABC <> [] /\
  (exists pre rest, replay_outcome fetch_B_fails 0 (mkSw store_ABC [] []) pre rest) /\
  store (processCheckoutQueue fetch_B_fails 0 (mkSw store_ABC [] []))
    = [mkItem "B" (pay "B") 0; mkItem "C" (pay "C") 0] /\
  outbox (processCheckoutQueue fetch_B_fails 0 (mkSw store_ABC [] []))
    = [CHECKOUT_SYNC_COMPLETE true (pay "A") None; CHECKOUT_SYNC_PENDING 2] /\
  posted (processCheckoutQueue fetch_B_fails 0 (mkSw store_ABC [] [])) = [pay "A"; pay "B"].
Proof.
  split; [reflexivity|]. split; [discriminate|]. split.
  - apply (replay_pass_in_order_early_stop fetch_B_fails 0 (mkSw store_ABC [] []));
      [reflexivity | discriminate].
  - split; [reflexivity|]. split; reflexivity.
Defined.

(** ** C4: expiry *)

(** C4 (counterexample). An order queued 73 hours ago ("B") sits behind a
    fresh order ("A") and the network is down: the pass stops at A's
    failed write, B stays queued and no expired message is sent for it. *)
Lemma expired_item_behind_failure_kept :
  let s := mkSw [mkItem "A" (pay "A") (hours 73); mkItem "B" (pay "B") 0] [] [] in
  let s' := processCheckoutQueue (fun _ => NetworkError) (hours 73) s in
  is_expired (hours 73) (mkItem "B" (pay "B") 0) = true /\
  In (mkItem "B" (pay "B") 0) (store s') /\
  ~ In (CHECKOUT_SYNC_COMPLETE false (pay "B") (Some "expired"%string)) (outbox s').
Proof.
  split; [reflexivity|]. split.
  - simpl. right; left; reflexivity.
  - simpl. intros [H|[]]. discriminate.
Qed.

(** C4 (amended). Every item with [now - queuedAt > 72 h] that the replay
    pass reaches (every item before it was expired or written
    successfully) is deleted: no item with its id is left, the failed
    completion message with [reason = "expired"] is broadcast, no remote
    write is made for it, and the pass goes on to the next item (the next
    non-expired item is written).  The threshold is fixed at 72 hours. *)
Theorem expired_item_dropped_when_reached :
  forall (fetch_order : Payload -> FetchResult) (now : Z) (s : SwState)
         (pre : list QueueItem) (it : QueueItem) (post : list QueueItem),
  store s = pre ++ it :: post ->
  Forall (passes_item fetch_order now) pre ->
  is_expired now it = true ->
  expired_outcome fetch_order now s pre it post.
Proof.
  intros fetch_order now s pre it post E F Ex. unfold expired_outcome.
  assert (Hne : store s <> []) by (rewrite E; destruct pre; discriminate).
  rewrite (process_nonempty fetch_order now s Hne), E.
  rewrite (replay_items_app fetch_order now pre (it :: post) s F).
  set (R := replay_items fetch_order now pre s).
  set (X := broadcastMessage
              (CHECKOUT_SYNC_COMPLETE false (qpayload it) (Some "expired"%string))
              (deleteQueuedCheckout (qid it) R)).
  assert (Hit : replay_items fetch_order now (it :: post) R
                = replay_items fetch_order now post X) by (simpl; rewrite Ex; reflexivity).
  rewrite Hit. unfold sendQueueStatus, broadcastMessage. cbn [store outbox posted].
  split; [|split; [|split]].
  - intros y Hy. apply replay_items_store_incl in Hy.
    unfold X in Hy. simpl in Hy. unfold store_delete in Hy.
    apply filter_In in Hy. destruct Hy as [_ Hy].
    destruct (String.eqb_spec (qid y) (qid it)); [discriminate | assumption].
  - destruct (replay_items_outbox_grows fetch_order now post X) as [m Hm].
    rewrite Hm. unfold X. simpl. apply in_or_app. left. apply in_or_app. left.
    apply in_or_app. right. left. reflexivity.
  - destruct (replay_items_posted fetch_order now post X) as (L & HL & (L' & HL') & Hnx).
    exists L. split; [|split].
    + rewrite HL. unfold X. simpl. unfold R.
      rewrite (replay_items_all_pass fetch_order now pre s F).
      rewrite map_app, <- app_assoc. reflexivity.
    + apply Forall_forall. intros x Hx.
      assert (Hin : In x (filter (not_expired now) post))
        by (rewrite <- HL'; apply in_or_app; left; exact Hx).
      apply filter_In in Hin. destruct Hin as [_ Hin]. unfold not_expired in Hin.
      destruct (is_expired now x); [discriminate | reflexivity].
    + exact Hnx.
  - intros x. unfold is_expired. rewrite Z.ltb_lt. lia.
Qed.

Lemma expired_item_dropped_when_reached_witness :
  let s := mkSw [mkItem "A" (pay "A") 0; mkItem "B" (pay "B") (hours 73)] [] [] in
  store s = [] ++ mkItem "A" (pay "A") 0 :: [mkItem "B" (pay "B") (hours 73)] /\
  Forall (passes_item (fun _ => NetworkError) (hours 74)) [] /\
  is_expired (hours 74) (mkItem "A" (pay "A") 0) = true /\
  expired_outcome (fun _ => NetworkError) (hours 74) s [] (mkItem "A" (pay "A") 0)
    [mkItem "B" (pay "B") (hours 73)].
Proof.
  split; [reflexivity|]. split; [constructor|]. split; [reflexivity|].
  apply (expired_item_dropped_when_reached (fun _ => NetworkError) (hours 74)
           (mkSw [mkItem "A" (pay "A") 0; mkItem "B" (pay "B") (hours 73)] [] [])
           [] (mkItem "A" (pay "A") 0) [mkItem "B" (pay "B") (hours 73)]);
    [reflexivity | constructor | reflexivity].
Defined.

(** ** C9: replay triggers are not single-flight *)

(** C9 (counterexample). One fresh order "A" is queued.  A
    [TRIGGER_CHECKOUT_SYNC] pass reads the queue; a [checkout-sync] sync
    event then starts a second pass while the first is in progress; the
    two passes interleave and both POST order A. *)
Lemma replay_not_single_flight :
  let w0 := mkWorker (mkSw [mkItem "A" (pay "A") 0] [] []) [] in
  let w1 := worker_run (fun _ => Response 200) 0 two_triggers w0 in
  map in_progress (passes w1) = [true; true] /\
  posted (wstate (worker_run (fun _ => Response 200) 0 interleave_passes w1))
    = [pay "A"; pay "A"].
Proof. split; reflexivity. Qed.

(** C9 (amended). Each [TRIGGER_CHECKOUT_SYNC] message and each
    [checkout-sync] sync event starts a new pass, whether or not a pass is
    in progress: for any queue whose first item is not expired, a second
    trigger arriving after the first pass has read the queue runs
    concurrently with it, and both passes POST that first item. *)
Theorem replay_triggers_overlap :
  forall (fetch_order : Payload -> FetchResult) (now : Z) (s : SwState)
         (item : QueueItem) (rest : list QueueItem),
  store s = item :: rest ->
  is_expired now item = false ->
  let w1 := worker_run fetch_order now two_triggers (mkWorker s []) in
  map in_progress (passes w1) = [true; true] /\
  posted (wstate (worker_run fetch_order now interleave_passes w1))
    = posted s ++ [qpayload item; qpayload item].
Proof.
  intros fetch_order now [st o p] item rest E Ex w1. simpl in E. subst st.
  unfold w1, two_triggers, interleave_passes. simpl.
  rewrite Ex. simpl. rewrite Ex. simpl.
  split; [reflexivity|]. rewrite <- app_assoc. reflexivity.
Qed.

Lemma replay_triggers_overlap_witness :
  store (mkSw [mkItem "order-1" (pay "order-1") 5] [] []) = mkItem "order-1" (pay "order-1") 5 :: [] /\
  is_expired 10 (mkItem "order-1" (pay "order-1") 5) = false /\
  (let w1 := worker_run (fun _ => Response 200) 10 two_triggers
               (mkWorker (mkSw [mkItem "order-1" (pay "order-1") 5] [] []) []) in
   map in_progress (passes w1) = [true; true] /\
   posted (wstate (worker_run (fun _ => Response 200) 10 interleave_passes w1))
     = posted (mkSw [mkItem "order-1" (pay "order-1") 5] [] [])
       ++ [qpayload (mkItem "order-1" (pay "order-1") 5); qpayload (mkItem "order-1" (pay "order-1") 5)]).
Proof.
  split; [reflexivity|]. split; [reflexivity|].
  apply (replay_triggers_overlap (fun _ => Response 200) 10
           (mkSw [mkItem "order-1" (pay "order-1") 5] [] [])
           (mkItem "order-1" (pay "order-1") 5) []); reflexivity.
Defined.

(** ** C5: quiet hours *)

Lemma minutesFromHHMM_some (v : option string) (m : Z) :
  minutesFromHHMM v = Some m -> matches_HHMM v.
Proof.
  destruct v as [s|]; [|discriminate].
  destruct s as [|h1 [|h2 [|c [|m1 [|m2 [|x r]]]]]]; simpl; try discriminate.
  destruct (is_digit h1) eqn:D1, (is_digit h2) eqn:D2, (Ascii.eqb c ":") eqn:C,
           (is_digit m1) eqn:M1, (is_digit m2) eqn:M2; simpl; try discriminate.
  intros _. apply Ascii.eqb_eq in C. subst c.
  exists h1, h2, m1, m2. repeat split; assumption.
Qed.

Lemma minutesFromHHMM_matches (v : option string) :
  matches_HHMM v -> exists m, minutesFromHHMM v = Some m.
Proof.
  intros (h1 & h2 & m1 & m2 & -> & D1 & D2 & M1 & M2). simpl.
  rewrite D1, D2, M1, M2. simpl. eexists; reflexivity.
Qed.

(** C5. Quiet hours hold exactly when they are enabled, both bounds parse
    as [HH:MM], and the local minutes [cur] of [now] in the configured
    timezone fall in [start <= cur < end] (if [start <= end]) or in
    [cur >= start \/ cur < end] (if the window wraps midnight); a bound
    not matching [HH:MM] parses to nothing, so the check is off for that
    subscription.  With [22:00]-[08:00], local 23:30 is within quiet hours
    and 09:00 is not. *)
Theorem quiet_hours_window :
  (forall (local_minutes : string -> Z -> Z) (p : Preferences) (now : Z),
     isWithinQuietHours local_minutes p now = true <->
     exists q start end_,
       quietHours p = Some q /\ qh_enabled q = true /\
       minutesFromHHMM (qh_start q) = Some start /\
       minutesFromHHMM (qh_end q) = Some end_ /\
       within_window start end_ (local_minutes (timezone_or_utc (qh_timezone q)) now)) /\
  (forall v : option string, minutesFromHHMM v = None <-> ~ matches_HHMM v) /\
  (forall (local_minutes : string -> Z -> Z) (p : Preferences) (q : QuietHours) (now : Z),
     quietHours p = Some q -> qh_enabled q = true ->
     qh_start q = Some "22:00"%string -> qh_end q = Some "08:00"%string ->
     (local_minutes (timezone_or_utc (qh_timezone q)) now = 23 * 60 + 30 ->
        isWithinQuietHours local_minutes p now = true) /\
     (local_minutes (timezone_or_utc (qh_timezone q)) now = 9 * 60 ->
        isWithinQuietHours local_minutes p now = false)).
Proof.
  split; [|split].
  - intros lm p now. unfold isWithinQuietHours, within_window. split.
    + destruct (quietHours p) as [q|]; [|discriminate].
      destruct (qh_enabled q) eqn:En; simpl; [|discriminate].
      destruct (minutesFromHHMM (qh_start q)) as [st|] eqn:Hs; [|discriminate].
      destruct (minutesFromHHMM (qh_end q)) as [en|] eqn:He; [|discriminate].
      intros H. exists q, st, en. repeat split; try reflexivity; try assumption.
      destruct (st <=? en) eqn:L.
      * apply andb_true_iff in H. rewrite Z.leb_le, Z.ltb_lt in H.
        apply Z.leb_le in L. left. lia.
      * apply orb_true_iff in H. rewrite Z.leb_le, Z.ltb_lt in H.
        apply Z.leb_gt in L. right. lia.
    + intros (q & st & en & Hq & En & Hs & He & W). rewrite Hq, En. simpl.
      rewrite Hs, He.
      destruct (st <=? en) eqn:L.
      * apply Z.leb_le in L. apply andb_true_iff. rewrite Z.leb_le, Z.ltb_lt. lia.
      * apply Z.leb_gt in L. apply orb_true_iff. rewrite Z.leb_le, Z.ltb_lt. lia.
  - intros v. split.
    + intros H M. destruct (minutesFromHHMM_matches v M) as [m Hm]. congruence.
    + intros H. destruct (minutesFromHHMM v) as [m|] eqn:Hm; [|reflexivity].
      exfalso. apply H. apply (minutesFromHHMM_some v m Hm).
  - intros lm p q now Hq En Hs He. unfold isWithinQuietHours.
    rewrite Hq, En, Hs, He. simpl. split; intros C; rewrite C; reflexivity.
Qed.

Lemma quiet_hours_window_witness :
  let q := mkQuiet true (Some "22:00"%string) (Some "08:00"%string) (Some "Asia/Kolkata"%string) in
  let p := mkPrefs [("flashSales"%string, true)] (Some q) None in
  let lm := fun (_ : string) (t : Z) => t in
  quietHours p = Some q /\ qh_enabled q = true /\
  qh_start q = Some "22:00"%string /\ qh_end q = Some "08:00"%string /\
  isWithinQuietHours lm p (23 * 60 + 30) = true /\ isWithinQuietHours lm p (9 * 60) = false.
Proof.
  intros q p lm.
  destruct (proj2 (proj2 quiet_hours_window) lm p q (23 * 60 + 30) eq_refl eq_refl eq_refl eq_refl)
    as [H1 _].
  destruct (proj2 (proj2 quiet_hours_window) lm p q (9 * 60) eq_refl eq_refl eq_refl eq_refl)
    as [_ H2].
  do 4 (split; [reflexivity|]). exact (conj (H1 eq_refl) (H2 eq_refl)).
Defined.

(** ** C2: the audience filter *)

(** C2 (counterexample). A subscription opted into [flashSales], not
    muted, without quiet hours, whose [expirationTime] equals [now], is
    kept by [filterEligibleSubscriptions] (the code drops only
    [expirationTime < now]), although its expirationTime is not [> now]. *)
Lemma audience_keeps_expiry_at_now :
  let sub := mkSub "https://push.example/s1" (Some 1000)
               (Some (mkPrefs [("flashSales"%string, true)] None None)) in
  filterEligibleSubscriptions (fun _ _ => 0) [sub] "flashSales" 1000 = [sub] /\
  ~ (expirationTime sub = None \/ exists t, expirationTime sub = Some t /\ t > 1000).
Proof.
  split; [reflexivity|]. simpl. intros [H|(t & H & L)]; [discriminate|].
  injection H as <-. lia.
Qed.

(** C2 (amended). A subscription is kept by [filterEligibleSubscriptions]
    for category [C] at [now] iff it is in the input, it has preferences
    with [preferences[C]] true, [mutedUntil] is null or [<= now], it is
    not within quiet hours, and [expirationTime] is null or [>= now]. *)
Theorem audience_filter_iff :
  forall (local_minutes : string -> Z -> Z) (subs : list Subscription)
         (category : string) (now : Z) (sub : Subscription),
  In sub (filterEligibleSubscriptions local_minutes subs category now) <->
  In sub subs /\
  exists p, preferences sub = Some p /\
    category_flag p category = true /\
    (mutedUntil p = None \/ exists t, mutedUntil p = Some t /\ t <= now) /\
    isWithinQuietHours local_minutes p now = false /\
    (expirationTime sub = None \/ exists t, expirationTime sub = Some t /\ t >= now).
Proof.
  intros lm subs category now sub. unfold filterEligibleSubscriptions.
  rewrite filter_In. apply and_iff_compat_l. unfold eligible, isTemporarilyMuted.
  split.
  - destruct (preferences sub) as [p|]; [|discriminate].
    destruct (category_flag p category) eqn:Cf; simpl; [|discriminate].
    destruct (mutedUntil p) as [mu|] eqn:Mu.
    + destruct (now <? mu) eqn:Lm; [discriminate|].
      destruct (isWithinQuietHours lm p now) eqn:Q; [discriminate|].
      intros H. exists p. repeat split; try reflexivity; try assumption.
      * right. exists mu. split; [exact Mu|]. apply Z.ltb_ge in Lm. lia.
      * destruct (expirationTime sub) as [t|]; [|left; reflexivity].
        destruct (t <? now) eqn:Lt; [discriminate|]. right. exists t.
        split; [reflexivity|]. apply Z.ltb_ge in Lt. lia.
    + destruct (isWithinQuietHours lm p now) eqn:Q; [discriminate|].
      intros H. exists p. repeat split; try reflexivity; try assumption.
      * left; exact Mu.
      * destruct (expirationTime sub) as [t|]; [|left; reflexivity].
        destruct (t <? now) eqn:Lt; [discriminate|]. right. exists t.
        split; [reflexivity|]. apply Z.ltb_ge in Lt. lia.
  - intros (p & Hp & Cf & Mu & Q & Ex). rewrite Hp, Cf. simpl.
    assert (Hm : match mutedUntil p with Some t => now <? t | None => false end = false).
    { destruct Mu as [-> | (t & -> & L)]; [reflexivity|]. apply Z.ltb_ge. lia. }
    rewrite Hm, Q.
    destruct Ex as [-> | (t & -> & L)]; [reflexivity|].
    assert (Lt : (t <? now) = false) by (apply Z.ltb_ge; lia). rewrite Lt. reflexivity.
Qed.

(** ** C3: dispatching a campaign twice *)

Lemma send_all_effect (lm : string -> Z -> Z) (po : string -> PushOutcome)
  (l : list Subscription) (c : Campaign) (db : Db) :
  pushes (snd (send_all po l c db)) = pushes db ++ map (fun sub => (endpoint sub, c)) l /\
  campaigns (snd (send_all po l c db)) = campaigns db /\
  length (fst (send_all po l c db)) = length l.
Proof.
  revert db. induction l as [|sub r IH]; intros db; simpl.
  - rewrite app_nil_r. repeat split.
  - unfold sendWebPush.
    destruct (po (endpoint sub)) as [|code]; [|destruct ((code =? 410) || (code =? 404))];
    match goal with
    | |- context [send_all po r c ?d] =>
        destruct (IH d) as (H1 & H2 & H3);
        destruct (send_all po r c d) as [oks db2]; simpl in *
    end;
    rewrite H1, <- app_assoc; repeat split; congruence.
Qed.

Lemma mark_sent_overwrite (id : string) (k1 a1 k2 a2 : nat) (cs : list Campaign) :
  mark_sent id k2 a2 (mark_sent id k1 a1 cs) = mark_sent id k2 a2 cs.
Proof.
  induction cs as [|c r IH]; simpl; [reflexivity|].
  destruct (c_id c) as [i|] eqn:Ci.
  - destruct (String.eqb i id) eqn:E; simpl; rewrite ?Ci, ?E; [reflexivity|].
    rewrite IH. reflexivity.
  - simpl. rewrite Ci, IH. reflexivity.
Qed.

Lemma recordCampaignEvent_fields (e : CampaignEvent) (db : Db) :
  campaigns (recordCampaignEvent e db) = campaigns db /\
  pushes (recordCampaignEvent e db) = pushes db /\
  subscriptions (recordCampaignEvent e db) = subscriptions db.
Proof. unfold recordCampaignEvent. destruct (ev_campaignId e), (ev_notificationId e); auto. Qed.

Lemma dispatch_effect (lm : string -> Z -> Z) (po : string -> PushOutcome) (now : Z)
  (c : Campaign) (db : Db) (id : string) :
  c_id c = Some id ->
  let eligibles := filterEligibleSubscriptions lm
                     (filter (opted_in (c_category c)) (subscriptions db)) (c_category c) now in
  pushes (dispatchCampaign lm po now c db)
    = pushes db ++ map (fun sub => (endpoint sub, c)) eligibles /\
  exists k, (k <= length eligibles)%nat /\
    campaigns (dispatchCampaign lm po now c db)
    = mark_sent id k (length eligibles) (campaigns db).
Proof.
  intros Hid eligibles. unfold dispatchCampaign. fold eligibles.
  destruct (send_all_effect lm po eligibles c db) as (Hp & Hc & Hl).
  destruct (send_all po eligibles c db) as [results db1]. simpl in Hp, Hc, Hl.
  rewrite Hid.
  match goal with
  | |- context [recordCampaignEvent ?e db1] =>
      destruct (recordCampaignEvent_fields e db1) as (Rc & Rp & _);
      set (db2 := recordCampaignEvent e db1) in *
  end.
  simpl. split.
  - rewrite Rp, Hp. reflexivity.
  - eexists. split; [|rewrite Rc, Hc; reflexivity].
    rewrite <- Hl. clear. induction results as [|b r IH]; simpl; [lia|].
    destruct b; simpl; lia.
Qed.

(** C3 (counterexample). A persisted campaign dispatched once is [sent];
    dispatching it again sends the push to its audience a second time (two
    pushes in all to the one subscriber).  [successCount] stays 1: it is
    overwritten, not added up. *)
Lemma dispatch_twice_resends :
  let sub := mkSub "https://push.example/s1" None
               (Some (mkPrefs [("flashSales"%string, true)] None None)) in
  let c := mkCampaign (Some "c1"%string) "Sale" "50% off" "flashSales"
             (Some "cmp-1"%string) (Some "n-1"%string) (Some 500) Scheduled None None in
  let db0 := mkDb [sub] [c] [] [] in
  let db1 := dispatchCampaign (fun _ _ => 0) (fun _ => PushDelivered) 1000 c db0 in
  let db2 := dispatchCampaign (fun _ _ => 0) (fun _ => PushDelivered) 1000 c db1 in
  map c_status (campaigns db1) = [Sent] /\
  length (pushes db1) = 1%nat /\ length (pushes db2) = 2%nat /\
  map c_successCount (campaigns db2) = [Some 1%nat].
Proof. repeat split; reflexivity. Qed.

Lemma send_all_results (po : string -> PushOutcome) (l : list Subscription)
  (c : Campaign) (db : Db) :
  fst (send_all po l c db) = map (fun sub => delivered (po (endpoint sub))) l.
Proof.
  revert db. induction l as [|sub r IH]; intros db; simpl; [reflexivity|].
  unfold sendWebPush.
  destruct (po (endpoint sub)) as [|code]; [|destruct ((code =? 410) || (code =? 404))];
  match goal with
  | |- context [send_all po r c ?d] =>
      pose proof (IH d) as H1; destruct (send_all po r c d) as [oks db2]; simpl in *
  end;
  rewrite H1; reflexivity.
Qed.

Lemma filter_id_map {A : Type} (f : A -> bool) (l : list A) :
  length (filter (fun b => b) (map f l)) = length (filter f l).
Proof. induction l as [|x r IH]; simpl; [reflexivity|]. destruct (f x); simpl; lia. Qed.

Lemma dispatch_campaigns (lm : string -> Z -> Z) (po : string -> PushOutcome) (now : Z)
  (c : Campaign) (db : Db) (id : string) :
  c_id c = Some id ->
  let eligibles := filterEligibleSubscriptions lm
                     (filter (opted_in (c_category c)) (subscriptions db)) (c_category c) now in
  campaigns (dispatchCampaign lm po now c db)
  = mark_sent id (length (filter (fun sub => delivered (po (endpoint sub))) eligibles))
      (length eligibles) (campaigns db).
Proof.
  intros Hid eligibles. unfold dispatchCampaign. fold eligibles.
  destruct (send_all_effect lm po eligibles c db) as (_ & Hc & _).
  pose proof (send_all_results po eligibles c db) as Hr.
  destruct (send_all po eligibles c db) as [results db1]. simpl in Hc, Hr.
  rewrite Hid.
  match goal with
  | |- context [recordCampaignEvent ?e db1] =>
      destruct (recordCampaignEvent_fields e db1) as (Rc & _ & _)
  end.
  simpl. rewrite Rc, Hc, Hr, filter_id_map. reflexivity.
Qed.

(** C3 (amended). [dispatchCampaign] does not look at the campaign's
    status.  Invoked a second time for a persisted campaign, it sends the
    payload again to every subscription then eligible, and the campaign
    document ends up exactly as if only the second invocation had run:
    [status] sent, [successCount] the number of pushes of the second
    invocation that were delivered and [audienceCount] its number of
    eligible subscriptions (the first invocation's counts are replaced,
    never summed).  The push service may answer differently each time. *)
Theorem dispatch_twice_overwrites_counts :
  forall (lm : string -> Z -> Z) (po1 po2 : string -> PushOutcome) (now1 now2 : Z)
         (c : Campaign) (db : Db) (id : string),
  c_id c = Some id ->
  let db1 := dispatchCampaign lm po1 now1 c db in
  let db2 := dispatchCampaign lm po2 now2 c db1 in
  let eligibles1 := filterEligibleSubscriptions lm
                      (filter (opted_in (c_category c)) (subscriptions db)) (c_category c) now1 in
  let eligibles2 := filterEligibleSubscriptions lm
                      (filter (opted_in (c_category c)) (subscriptions db1)) (c_category c) now2 in
  campaigns db1
    = mark_sent id (length (filter (fun sub => delivered (po1 (endpoint sub))) eligibles1))
        (length eligibles1) (campaigns db) /\
  pushes db2 = pushes db1 ++ map (fun sub => (endpoint sub, c)) eligibles2 /\
  campaigns db2
    = mark_sent id (length (filter (fun sub => delivered (po2 (endpoint sub))) eligibles2))
        (length eligibles2) (campaigns db).
Proof.
  intros lm po1 po2 now1 now2 c db id Hid db1 db2 eligibles1 eligibles2.
  pose proof (dispatch_campaigns lm po1 now1 c db id Hid) as C1.
  pose proof (dispatch_campaigns lm po2 now2 c db1 id Hid) as C2.
  destruct (dispatch_effect lm po2 now2 c db1 id Hid) as (P2 & _).
  split; [exact C1|]. split; [exact P2|].
  unfold db2. rewrite C2. fold db1 in C1. rewrite C1. apply mark_sent_overwrite.
Qed.

Lemma dispatch_twice_overwrites_counts_witness :
  let sub := mkSub "https://push.example/s1" None
               (Some (mkPrefs [("flashSales"%string, true)] None None)) in
  let c := mkCampaign (Some "c1"%string) "Sale" "50% off" "flashSales"
             (Some "cmp-1"%string) (Some "n-1"%string) (Some 500) Scheduled None None in
  let db0 := mkDb [sub] [c] [] [] in
  let lm := fun (_ : string) (_ : Z) => 0 in
  let po1 := fun (_ : string) => PushDelivered in
  let po2 := fun (_ : string) => PushFailed 500 in
  c_id c = Some "c1"%string /\
  map c_successCount (campaigns (dispatchCampaign lm po1 1000 c db0)) = [Some 1%nat] /\
  campaigns (dispatchCampaign lm po2 2000 c (dispatchCampaign lm po1 1000 c db0))
    = mark_sent "c1" 0 1 (campaigns db0).
Proof.
  intros sub c db0 lm po1 po2.
  destruct (dispatch_twice_overwrites_counts lm po1 po2 1000 2000 c db0 "c1" eq_refl)
    as (C1 & _ & C2).
  split; [reflexivity|]. split.
  - rewrite C1. vm_compute. reflexivity.
  - rewrite C2. vm_compute. reflexivity.
Defined.

(** ** C8: rehydration after a restart *)

(** C8 (code bug).  A campaign persisted as scheduled for 30 days after
    the restart instant: [bootstrapCampaignScheduler] re-arms it with
    [setTimeout(cb, sendAt - now)], a delay above 2147483647 ms, which
    Node replaces by 1 ms.  The timer is due 1 ms after the restart and,
    when it fires, the campaign is dispatched and marked sent, 30 days
    before its [sendAt].  (A delay of at most 2147483647 ms is armed for
    [now + delay = sendAt].) *)
Theorem rehydrate_far_campaign_fires_at_once :
  let now := 1700000000000 in
  let sendAt := now + 30 * 24 * hours 1 in
  let c := mkCampaign (Some "c30"%string) "Sale" "Starts soon" "flashSales"
             (Some "cmp-30"%string) (Some "n-30"%string) (Some sendAt) Scheduled None None in
  let lm := fun (_ : string) (_ : Z) => 0 in
  let po := fun (_ : string) => PushDelivered in
  let st := restart (mkSched (mkDb [] [c] [] []) [(sendAt, c)] ["c30"%string]) in
  let st' := bootstrapCampaignScheduler lm po now st in
  timers st' = [(now + 1, c)] /\
  sendAt - now > 2147483647 /\
  map c_status (campaigns (sdb (fire_timer lm po (now + 1) c st'))) = [Sent] /\
  node_timer_delay 2147483647 = 2147483647.
Proof. repeat split; reflexivity. Qed.

(** ** C10: [POST /api/orders] *)

Lemma JVal_eqb_eq (a b : JVal) : JVal_eqb a b = true <-> a = b.
Proof.
  destruct a, b; simpl; split; intros H; try discriminate;
    first [ apply String.eqb_eq in H; congruence
          | apply Z.eqb_eq in H; congruence
          | apply Bool.eqb_prop in H; congruence
          | injection H as <-; first [ apply String.eqb_refl | apply Z.eqb_refl
                                     | apply Bool.eqb_reflx ]
          | reflexivity ].
Qed.

Lemma nodupb_NoDup {A} (eqb : A -> A -> bool) (eqb_eq : forall a b, eqb a b = true <-> a = b)
  (l : list A) : nodupb eqb l = true <-> NoDup l.
Proof.
  induction l as [|x r IH]; simpl.
  - split; [constructor | reflexivity].
  - rewrite andb_true_iff, negb_true_iff, IH. split.
    + intros [Hx Hr]. constructor; [|exact Hr]. intros Hin.
      assert (existsb (eqb x) r = true) by (apply existsb_exists; exists x; split;
        [exact Hin | apply eqb_eq; reflexivity]). congruence.
    + intros H. inversion H as [|? ? Hx Hr]; subst. split; [|exact Hr].
      destruct (existsb (eqb x) r) eqn:E; [|reflexivity].
      apply existsb_exists in E. destruct E as [y [Hy E]]. apply eqb_eq in E. subst.
      contradiction.
Qed.

Lemma get_set_same (k : string) (v : JVal) (d : Doc) : get_field k (set_field k v d) = Some v.
Proof.
  unfold get_field. induction d as [|[k' v'] r IH]; simpl.
  - rewrite String.eqb_refl. reflexivity.
  - destruct (String.eqb_spec k' k) as [->|E]; simpl; rewrite ?String.eqb_refl; [reflexivity|].
    destruct (String.eqb_spec k' k); [contradiction|]. exact IH.
Qed.

Lemma get_set_other (k k' : string) (v : JVal) (d : Doc) :
  k' <> k -> get_field k (set_field k' v d) = get_field k d.
Proof.
  intros Ne. unfold get_field. induction d as [|[k0 v0] r IH]; simpl.
  - destruct (String.eqb_spec k' k); [contradiction | reflexivity].
  - destruct (String.eqb_spec k0 k') as [->|E]; simpl.
    + destruct (String.eqb_spec k' k); [contradiction | reflexivity].
    + destruct (String.eqb_spec k0 k); [reflexivity | exact IH].
Qed.

Lemma set_field_keys (k : string) (v : JVal) (d : Doc) :
  NoDup (map fst d) -> NoDup (map fst (set_field k v d)).
Proof.
  induction d as [|[k0 v0] r IH]; simpl; intros H.
  - repeat constructor; simpl; tauto.
  - inversion H as [|? ? Hk Hr]; subst.
    destruct (String.eqb_spec k0 k) as [->|E]; simpl.
    + constructor; assumption.
    + constructor; [|apply IH; exact Hr].
      intros Hin. apply Hk. clear -Hin E. induction r as [|[k1 v1] r IH]; simpl in *.
      * destruct Hin as [->|[]]. contradiction.
      * destruct (String.eqb_spec k1 k); simpl in Hin.
        -- destruct Hin as [->|Hin]; [contradiction | right; exact Hin].
        -- destruct Hin as [Hin|Hin]; [left; exact Hin | right; apply IH; exact Hin].
Qed.

Lemma get_field_none_keys (k : string) (d : Doc) :
  ~ In k (map fst d) -> get_field k d = None.
Proof.
  unfold get_field. induction d as [|[k0 v0] r IH]; simpl; intros H; [reflexivity|].
  destruct (String.eqb_spec k0 k); [exfalso; apply H; left; assumption|].
  apply IH. intros Hin; apply H; right; exact Hin.
Qed.

Lemma apply_set_absent (k : string) (record d : Doc) :
  ~ In k (map fst record) -> get_field k (apply_set record d) = get_field k d.
Proof.
  unfold apply_set. revert d. induction record as [|[k0 v0] r IH]; simpl; intros d H;
    [reflexivity|].
  rewrite IH by tauto. apply get_set_other. intros ->; apply H; left; reflexivity.
Qed.

Lemma apply_set_get (k : string) (v : JVal) (record d : Doc) :
  NoDup (map fst record) -> get_field k record = Some v ->
  get_field k (apply_set record d) = Some v.
Proof.
  unfold apply_set. revert d. induction record as [|[k0 v0] r IH]; intros d Hn Hg;
    [discriminate|].
  simpl in Hn. inversion Hn as [|? ? Hk Hr]; subst. simpl.
  unfold get_field in Hg. simpl in Hg.
  destruct (String.eqb_spec k0 k) as [->|E].
  - injection Hg as ->. fold (apply_set r (set_field k v d)).
    rewrite apply_set_absent by exact Hk. apply get_set_same.
  - apply IH; [exact Hr | exact Hg].
Qed.

Lemma has_id_iff (v : JVal) (d : Doc) : has_id v d = true <-> get_field "id" d = Some v.
Proof.
  unfold has_id. destruct (get_field "id" d) as [w|]; [|split; discriminate].
  rewrite JVal_eqb_eq. split; congruence.
Qed.

Lemma in_doc_ids (v : JVal) (l : list Doc) : In v (doc_ids l) <-> existsb (has_id v) l = true.
Proof.
  unfold doc_ids. induction l as [|d r IH]; simpl; [split; [tauto | discriminate]|].
  rewrite in_app_iff, IH, orb_true_iff. apply or_iff_compat_r.
  destruct (get_field "id" d) as [w|] eqn:G.
  - unfold has_id. rewrite G, JVal_eqb_eq. simpl. split; [intros [->|[]]; reflexivity|].
    intros ->. left; reflexivity.
  - unfold has_id. rewrite G. simpl. split; [tauto | discriminate].
Qed.

Section Upsert.

Variables (v : JVal) (record : Doc).
Hypothesis record_id : forall d, get_field "id" (apply_set record d) = Some v.

Lemma upsert_doc_ids (l : list Doc) :
  doc_ids (upsert_by_id v record l)
  = if existsb (has_id v) l then doc_ids l else doc_ids l ++ [v].
Proof.
  unfold doc_ids. induction l as [|d r IH]; simpl.
  - rewrite record_id. reflexivity.
  - destruct (has_id v d) eqn:H; simpl.
    + rewrite record_id. apply has_id_iff in H. rewrite H. reflexivity.
    + rewrite IH. destruct (existsb (has_id v) r); [reflexivity|]. apply app_assoc.
Qed.

Lemma upsert_length (l : list Doc) :
  length (upsert_by_id v record l)
  = if existsb (has_id v) l then length l else S (length l).
Proof.
  induction l as [|d r IH]; simpl; [reflexivity|].
  destruct (has_id v d); simpl; [reflexivity|]. rewrite IH.
  destruct (existsb (has_id v) r); reflexivity.
Qed.

End Upsert.



(** ** Service worker caches *)

Lemma in_fold_delete (names : list string) (cs : CacheStorage) kv :
  In kv (fold_left (fun acc n => caches_delete n acc) names cs)
  <-> In kv cs /\ ~ In (fst kv) names.
Proof.
  revert cs. induction names as [|n r IH]; intros cs; simpl; [tauto|].
  rewrite IH. unfold caches_delete. rewrite filter_In, negb_true_iff, String.eqb_neq.
  split; [intros [[H1 H2] H3]; split; [exact H1|intros [E|E]; [congruence | tauto]]|].
  intros [H1 H2]. split; [split; [exact H1|]|]; intros E; apply H2; [left; symmetry | right]; exact E.
Qed.

Lemma existsb_keys_open (name : string) (cs : CacheStorage) :
  existsb (String.eqb name) (caches_keys (caches_open name cs)) = true.
Proof.
  unfold caches_open. destruct (existsb (String.eqb name) (caches_keys cs)) eqn:E; [exact E|].
  unfold caches_keys. rewrite map_app, existsb_app. simpl. rewrite String.eqb_refl, orb_true_r.
  reflexivity.
Qed.

Lemma caches_open_present (name : string) (cs : CacheStorage) :
  existsb (String.eqb name) (caches_keys cs) = true -> caches_open name cs = cs.
Proof. unfold caches_open. intros ->. reflexivity. Qed.

Lemma caches_keys_put (name url : string) (r : HttpResp) (cs : CacheStorage) :
  caches_keys (caches_put name url r cs) = caches_keys (caches_open name cs).
Proof.
  unfold caches_put, caches_keys. rewrite map_map. apply map_ext.
  intros [k c]. simpl. destruct (String.eqb k name); reflexivity.
Qed.

Lemma cache_match_put_same (url : string) (r : HttpResp) (c : Cache) :
  cache_match url (cache_put url r c) = Some r.
Proof.
  unfold cache_match. induction c as [|[u r'] rest IH]; simpl.
  - rewrite String.eqb_refl. reflexivity.
  - destruct (String.eqb u url) eqn:E; simpl; [rewrite String.eqb_refl; reflexivity|].
    rewrite E. exact IH.
Qed.

Lemma caches_get_map_put (name url : string) (r : HttpResp) (L : CacheStorage) :
  existsb (String.eqb name) (caches_keys L) = true ->
  caches_get name
    (map (fun kv => if String.eqb (fst kv) name then (fst kv, cache_put url r (snd kv)) else kv) L)
  = cache_put url r (caches_get name L).
Proof.
  unfold caches_get, caches_keys. induction L as [|[k c] L IH]; simpl; [discriminate|].
  intros H. destruct (String.eqb k name) eqn:E; simpl; rewrite E; [reflexivity|].
  apply IH. rewrite String.eqb_sym in E. rewrite E in H. exact H.
Qed.

Lemma caches_get_put_same (name url : string) (r : HttpResp) (cs : CacheStorage) :
  caches_get name (caches_put name url r cs)
  = cache_put url r (caches_get name (caches_open name cs)).
Proof. apply caches_get_map_put, existsb_keys_open. Qed.

Lemma caches_match_put_nonempty (name url : string) (r : HttpResp) (cs : CacheStorage) :
  caches_match url (caches_put name url r cs) <> None.
Proof.
  assert (G : forall L : CacheStorage, cache_match url (caches_get name L) <> None ->
                caches_match url L <> None).
  { unfold caches_get. induction L as [|[k c] L IH]; simpl; [tauto|].
    destruct (cache_match url c) eqn:M; [discriminate|].
    destruct (String.eqb k name); [congruence | exact IH]. }
  apply G. rewrite caches_get_put_same, cache_match_put_same. discriminate.
Qed.

Lemma includes_VERSION_CACHE_NAME : includes VERSION CACHE_NAME = false.
Proof. reflexivity. Qed.

Lemma activate_empty (cs : CacheStorage) : activate cs = [].
Proof.
  unfold activate. set (names := caches_keys cs).
  destruct (fold_left _ _ cs) as [|kv rest] eqn:E; [reflexivity|].
  exfalso. assert (H : In kv (kv :: rest)) by (left; reflexivity).
  rewrite <- E, in_fold_delete in H. destruct H as [H1 H2]. apply H2.
  assert (K : In (fst kv) names) by (apply in_map; exact H1).
  apply in_or_app. destruct (includes VERSION (fst kv)) eqn:I.
  - right. apply filter_In. split; [exact K|].
    apply negb_true_iff, String.eqb_neq. intros Ek. rewrite Ek in I.
    rewrite includes_VERSION_CACHE_NAME in I. discriminate.
  - left. apply filter_In. split; [exact K|]. rewrite I. reflexivity.
Qed.

Lemma cache_addAll_keys (net : Network) (name : string) (urls : list string)
  (cs cs' : CacheStorage) (k : string) :
  cache_addAll net name urls cs = Some cs' ->
  (k = name \/ In k (caches_keys cs)) -> In k (caches_keys cs').
Proof.
  unfold cache_addAll. destruct (forallb _ _); [|discriminate]. intros [= <-] Hk.
  assert (H0 : In k (caches_keys (caches_open name cs))).
  { destruct Hk as [->|Hk].
    - pose proof (existsb_keys_open name cs) as X. apply existsb_exists in X.
      destruct X as [x [Hx Ex]]. apply String.eqb_eq in Ex. subst x. exact Hx.
    - unfold caches_open. destruct (existsb _ _); [exact Hk|].
      unfold caches_keys. rewrite map_app. apply in_or_app. left. exact Hk. }
  generalize (caches_open name cs) H0. clear.
  induction (map (fun u => (u, net u)) urls) as [|[u o] r IH]; intros L HL; simpl; [exact HL|].
  apply IH. destruct o as [x|]; [|exact HL].
  rewrite caches_keys_put. unfold caches_open. destruct (existsb _ _); [exact HL|].
  unfold caches_keys. rewrite map_app. apply in_or_app. left. exact HL.
Qed.

(** X1. The two [activate] listeners of [sw.js] together delete every
    cache, including the two that a successful installation has just
    filled ([flash-shell-flash-store-v3], deleted by the second listener,
    and [flash-store-v1], deleted by the first); a navigation while
    offline then finds no fallback page at all. *)
Theorem activate_removes_installed_caches :
  forall (net : Network) (cs cs' : CacheStorage),
  install net cs = Some cs' ->
  In APP_SHELL_CACHE (caches_keys cs') /\ In CACHE_NAME (caches_keys cs') /\
  activate cs' = [] /\
  (forall (net' : Network) (url : string), net' url = None ->
     navigate net' url (activate cs') = (None, [])).
Proof.
  intros net cs cs' H. unfold install in H.
  destruct (cache_addAll net APP_SHELL_CACHE APP_SHELL_ASSETS cs) as [cs1|] eqn:E1;
    [|discriminate].
  split; [|split; [|split]].
  - apply (cache_addAll_keys _ _ _ _ _ _ H). right.
    apply (cache_addAll_keys _ _ _ _ _ _ E1). left; reflexivity.
  - apply (cache_addAll_keys _ _ _ _ _ _ H). left; reflexivity.
  - apply activate_empty.
  - intros net' url Hn. rewrite activate_empty. unfold navigate. rewrite Hn. reflexivity.
Qed.

Lemma activate_removes_installed_caches_witness :
  let net : Network := fun u => Some (mkResp 200 u) in
  exists cs', install net [] = Some cs' /\
    In APP_SHELL_CACHE (caches_keys cs') /\ In CACHE_NAME (caches_keys cs') /\
    activate cs' = [] /\
    (forall (net' : Network) (url : string), net' url = None ->
       navigate net' url (activate cs') = (None, [])).
Proof.
  intros net.
  exists (match install net [] with Some c => c | None => [] end).
  split; [vm_compute; reflexivity|].
  apply (activate_removes_installed_caches net []). vm_compute. reflexivity.
Defined.

(** X2. [cacheFirst] on a miss: a 200 response is returned and stored, and
    from then on the same request is answered from the cache whatever the
    network does; a response with another status is returned but not
    stored; a network error rejects. *)
Theorem cacheFirst_miss :
  forall (net : Network) (url name : string) (cs : CacheStorage),
  cache_match url (caches_get name (caches_open name cs)) = None ->
  (forall r, net url = Some r -> status r = 200 ->
     fst (cacheFirst net url name cs) = Some r /\
     forall net' : Network,
       cacheFirst net' url name (snd (cacheFirst net url name cs))
       = (Some r, snd (cacheFirst net url name cs))) /\
  (forall r, net url = Some r -> status r <> 200 ->
     cacheFirst net url name cs = (Some r, caches_open name cs)) /\
  (net url = None -> cacheFirst net url name cs = (None, caches_open name cs)).
Proof.
  intros net url name cs Hm. unfold cacheFirst. rewrite Hm.
  split; [|split].
  - intros r Hn Hs. rewrite Hn. apply Z.eqb_eq in Hs. rewrite Hs. simpl.
    split; [reflexivity|]. intros net'.
    rewrite caches_open_present by (rewrite caches_keys_put; apply existsb_keys_open).
    rewrite caches_get_put_same, cache_match_put_same. reflexivity.
  - intros r Hn Hs. rewrite Hn. apply Z.eqb_neq in Hs. rewrite Hs. reflexivity.
  - intros Hn. rewrite Hn. reflexivity.
Qed.

Lemma cacheFirst_miss_witness :
  let net : Network := fun u => Some (mkResp 200 u) in
  cache_match "/logo.png" (caches_get IMAGE_CACHE (caches_open IMAGE_CACHE [])) = None /\
  fst (cacheFirst net "/logo.png" IMAGE_CACHE []) = Some (mkResp 200 "/logo.png") /\
  cacheFirst (fun _ => None) "/logo.png" IMAGE_CACHE (snd (cacheFirst net "/logo.png" IMAGE_CACHE []))
  = (Some (mkResp 200 "/logo.png"), snd (cacheFirst net "/logo.png" IMAGE_CACHE [])).
Proof.
  intros net. split; [reflexivity|].
  destruct (cacheFirst_miss net "/logo.png" IMAGE_CACHE [] eq_refl) as [H _].
  destruct (H (mkResp 200 "/logo.png") eq_refl eq_refl) as [H1 H2].
  split; [exact H1 | apply H2].
Defined.

Lemma caches_match_open_none (name url : string) (cs : CacheStorage) :
  caches_match url cs = None -> caches_match url (caches_open name cs) = None.
Proof.
  unfold caches_open. destruct (existsb _ _); [tauto|].
  induction cs as [|[k c] L IH]; simpl; [reflexivity|].
  destruct (cache_match url c); [discriminate | exact IH].
Qed.

Lemma caches_match_put_first (name url : string) (r : HttpResp) (cs : CacheStorage) :
  caches_match url cs = None -> caches_match url (caches_put name url r cs) = Some r.
Proof.
  intros H. apply (caches_match_open_none name) in H.
  pose proof (existsb_keys_open name cs) as K. unfold caches_put.
  revert H K. generalize (caches_open name cs) as L.
  unfold caches_keys. induction L as [|[k c] L IH]; simpl; [discriminate|].
  intros H K. destruct (String.eqb k name) eqn:E; simpl.
  - rewrite cache_match_put_same. reflexivity.
  - destruct (cache_match url c); [discriminate|]. apply IH; [exact H|].
    rewrite String.eqb_sym in E. rewrite E in K. exact K.
Qed.

(** X3. A GET that is neither a navigation nor a same-origin image (for
    instance a GET to the API origin, such as [/api/sale-status]) and has
    a response in the runtime cache is answered with that cached response,
    whatever the network returns; the runtime cache then holds the
    network's response if it was a 200, and the old one otherwise. *)
Theorem fetch_get_answered_from_runtime_cache :
  forall (net : Network) (req : Request) (cs : CacheStorage) (c0 : HttpResp),
  r_method req = "GET"%string -> r_navigate req = false ->
  r_same_origin req && r_image req = false ->
  cache_match (r_url req) (caches_get RUNTIME_CACHE (caches_open RUNTIME_CACHE cs)) = Some c0 ->
  fst (handle_fetch net req cs) = Some (Some c0) /\
  cache_match (r_url req) (caches_get RUNTIME_CACHE (snd (handle_fetch net req cs)))
  = match net (r_url req) with
    | Some r => if status r =? 200 then Some r else Some c0
    | None => Some c0
    end.
Proof.
  intros net req cs c0 Hm Hn Hi Hc.
  assert (S : forall b : bool,
    fst (let '(r, cs') := staleWhileRevalidate net (r_url req) RUNTIME_CACHE cs in (Some r, cs'))
      = Some (Some c0) /\
    cache_match (r_url req) (caches_get RUNTIME_CACHE
      (snd (let '(r, cs') := staleWhileRevalidate net (r_url req) RUNTIME_CACHE cs in (Some r, cs'))))
    = match net (r_url req) with
      | Some r => if status r =? 200 then Some r else Some c0
      | None => Some c0
      end).
  { intros _. unfold staleWhileRevalidate. rewrite Hc.
    destruct (net (r_url req)) as [r|]; [|split; [reflexivity | exact Hc]].
    destruct (status r =? 200); simpl; (split; [reflexivity|]); [|exact Hc].
    rewrite caches_get_put_same, cache_match_put_same. reflexivity. }
  unfold handle_fetch. rewrite Hm, Hn, Hi. simpl.
  destruct (r_same_origin req && includes "/assets/" (r_url req)); apply (S true).
Qed.

Lemma fetch_get_answered_from_runtime_cache_witness :
  let req := mkRequest "GET" "http://localhost:4001/api/sale-status" false false false in
  let cs := [(RUNTIME_CACHE, [("http://localhost:4001/api/sale-status"%string,
                               mkResp 200 "isActive=false")])] in
  let net : Network := fun _ => Some (mkResp 200 "isActive=true") in
  fst (handle_fetch net req cs) = Some (Some (mkResp 200 "isActive=false")) /\
  cache_match (r_url req) (caches_get RUNTIME_CACHE (snd (handle_fetch net req cs)))
  = Some (mkResp 200 "isActive=true").
Proof.
  intros req cs net.
  exact (fetch_get_answered_from_runtime_cache net req cs (mkResp 200 "isActive=false")
           eq_refl eq_refl eq_refl eq_refl).
Defined.

(** X4. When no cache holds [/index.html], a successful online navigation
    to any URL returns the network's page and stores it as [/index.html];
    every later navigation while offline, to any URL, is answered with
    that page. *)
Theorem offline_navigation_serves_last_page :
  forall (net : Network) (url : string) (cs : CacheStorage) (r : HttpResp),
  caches_match "/index.html" cs = None -> net url = Some r -> status r = 200 ->
  fst (navigate net url cs) = Some r /\
  forall (net' : Network) (url' : string), net' url' = None ->
    navigate net' url' (snd (navigate net url cs))
    = (Some r, snd (navigate net url cs)).
Proof.
  intros net url cs r Hc Hn Hs.
  assert (E : navigate net url cs = (Some r, caches_put APP_SHELL_CACHE "/index.html" r cs)).
  { unfold navigate. rewrite Hn. apply Z.eqb_eq in Hs. rewrite Hs. reflexivity. }
  rewrite E. simpl. split; [reflexivity|].
  intros net' url' Hn'. unfold navigate. rewrite Hn'. unfold navigate_fallback.
  rewrite caches_match_put_first by exact Hc. reflexivity.
Qed.

Lemma offline_navigation_serves_last_page_witness :
  let net : Network := fun u => Some (mkResp 200 "<html>shop</html>") in
  caches_match "/index.html" [] = None /\
  fst (navigate net "/products" []) = Some (mkResp 200 "<html>shop</html>") /\
  navigate (fun _ => None) "/cart" (snd (navigate net "/products" []))
  = (Some (mkResp 200 "<html>shop</html>"), snd (navigate net "/products" [])).
Proof.
  intros net. split; [reflexivity|].
  destruct (offline_navigation_serves_last_page net "/products" [] (mkResp 200 "<html>shop</html>")
              eq_refl eq_refl eq_refl) as [H1 H2].
  split; [exact H1 | apply H2; reflexivity].
Defined.

(** ** Campaign events *)



(** ** Subscriptions and preferences *)

Lemma find_upsert_subscription (sub : Subscription) (subs : list Subscription) :
  find_subscription (endpoint sub) (upsert_subscription sub subs) = Some sub.
Proof.
  unfold find_subscription. induction subs as [|s r IH]; simpl.
  - rewrite String.eqb_refl. reflexivity.
  - destruct (String.eqb (endpoint s) (endpoint sub)) eqn:E; simpl.
    + rewrite String.eqb_refl. reflexivity.
    + rewrite E. exact IH.
Qed.

Lemma endpoints_upsert_subscription (sub : Subscription) (subs : list Subscription) :
  map endpoint (upsert_subscription sub subs)
  = if existsb (fun s => String.eqb (endpoint s) (endpoint sub)) subs
    then map endpoint subs else map endpoint subs ++ [endpoint sub].
Proof.
  induction subs as [|s r IH]; simpl; [reflexivity|].
  destruct (String.eqb (endpoint s) (endpoint sub)) eqn:E; simpl.
  - apply String.eqb_eq in E. rewrite E. reflexivity.
  - rewrite IH. destruct (existsb _ r); reflexivity.
Qed.

Lemma nodup_upsert_subscription (sub : Subscription) (subs : list Subscription) :
  NoDup (map endpoint subs) -> NoDup (map endpoint (upsert_subscription sub subs)).
Proof.
  intros H. rewrite endpoints_upsert_subscription.
  destruct (existsb _ subs) eqn:E; [exact H|].
  apply NoDup_app; [exact H | repeat constructor; simpl; tauto |].
  intros x Hx [<-|[]]. apply in_map_iff in Hx. destruct Hx as [s [Es Hs]].
  assert (X : existsb (fun s => String.eqb (endpoint s) (endpoint sub)) subs = true).
  { apply existsb_exists. exists s. split; [exact Hs|]. apply String.eqb_eq. exact Es. }
  congruence.
Qed.



Lemma find_none_all {A} (f : A -> bool) (l : list A) :
  (forall y, In y l -> f y = false) -> find f l = None.
Proof.
  induction l as [|x r IH]; simpl; intros H; [reflexivity|].
  rewrite (H x (or_introl eq_refl)). apply IH. intros y Hy. apply H. right; exact Hy.
Qed.

Lemma set_preferences_absent (e : string) (p : Preferences) (subs : list Subscription) :
  find_subscription e subs = None -> set_preferences e p subs = (false, subs).
Proof.
  unfold find_subscription. induction subs as [|s r IH]; simpl; [reflexivity|].
  destruct (String.eqb (endpoint s) e); [discriminate|]. intros H. rewrite IH by exact H.
  reflexivity.
Qed.

Lemma delete_one_absent (e : string) (subs : list Subscription) :
  find_subscription e subs = None -> delete_one e subs = (false, subs).
Proof.
  unfold find_subscription. induction subs as [|s r IH]; simpl; [reflexivity|].
  destruct (String.eqb (endpoint s) e); [discriminate|]. intros H. rewrite IH by exact H.
  reflexivity.
Qed.

Lemma set_preferences_present (e : string) (p : Preferences) (subs : list Subscription)
  (s : Subscription) :
  find_subscription e subs = Some s ->
  fst (set_preferences e p subs) = true /\
  find_subscription e (snd (set_preferences e p subs)) = Some (mkSub e (expirationTime s) (Some p)) /\
  map endpoint (snd (set_preferences e p subs)) = map endpoint subs.
Proof.
  unfold find_subscription. induction subs as [|x r IH]; simpl; [discriminate|].
  destruct (String.eqb (endpoint x) e) eqn:E.
  - intros [= <-]. apply String.eqb_eq in E. simpl. rewrite E, String.eqb_refl.
    repeat split; reflexivity.
  - intros H. destruct (IH H) as (H1 & H2 & H3).
    destruct (set_preferences e p r) as [m r']. simpl in *. rewrite E, H3.
    repeat split; assumption.
Qed.

Lemma delete_one_present (e : string) (subs : list Subscription) (s : Subscription) :
  NoDup (map endpoint subs) -> find_subscription e subs = Some s ->
  fst (delete_one e subs) = true /\ find_subscription e (snd (delete_one e subs)) = None.
Proof.
  unfold find_subscription. induction subs as [|x r IH]; simpl; [discriminate|].
  intros Hn. inversion Hn as [|? ? Hx Hr]; subst.
  destruct (String.eqb (endpoint x) e) eqn:E.
  - intros _. apply String.eqb_eq in E. subst e. simpl. split; [reflexivity|].
    apply find_none_all. intros y Hy. apply String.eqb_neq. intros Ey.
    apply Hx. rewrite <- Ey. apply in_map. exact Hy.
  - intros H. destruct (IH Hr H) as [H1 H2].
    destruct (delete_one e r) as [d r']. simpl in *. rewrite E. split; assumption.
Qed.



(** X8. A subscription saved without preferences gets the defaults, and
    with them it is in the audience of a dispatch in each of the four
    categories [flashSales], [newArrivals], [priceDrops] and
    [backInStock] at every instant (the default quiet hours are
    disabled), as long as it has not expired. *)
Theorem default_subscriber_in_every_audience :
  forall (tz : string) (lm : string -> Z -> Z) (sb : SubBody) (e : string)
         (subs : list Subscription) (category : string) (now : Z),
  sb_endpoint sb = Some e -> str_truthy (Some e) = true ->
  In category ["flashSales"; "newArrivals"; "priceDrops"; "backInStock"]%string ->
  (forall t, sb_expirationTime sb = Some t -> t = 0 \/ t >= now) ->
  let '(_, _, subs') := save_subscription tz (Some sb) None subs in
  exists sub, endpoint sub = e /\
    In sub (filterEligibleSubscriptions lm (filter (opted_in category) subs') category now).
Proof.
  intros tz lm sb e subs category now He Ht Hc Hx. unfold save_subscription. rewrite He, Ht.
  set (sub := mkSub e (match sb_expirationTime sb with
                       | Some t => if t =? 0 then None else Some t
                       | None => None end) (Some (defaultPreferences tz))).
  exists sub. split; [reflexivity|].
  pose proof (find_upsert_subscription sub subs) as F. unfold find_subscription in F.
  apply find_some in F. destruct F as [Fin _].
  assert (Fl : category_flag (defaultPreferences tz) category = true /\
               opted_in category sub = true).
  { unfold category_flag, opted_in, sub. simpl.
    destruct Hc as [<-|[<-|[<-|[<-|[]]]]]; split; reflexivity. }
  destruct Fl as [Fl Fo].
  unfold filterEligibleSubscriptions. apply filter_In. split.
  - apply filter_In. split; [exact Fin | exact Fo].
  - unfold eligible. simpl. rewrite Fl. simpl.
    destruct (sb_expirationTime sb) as [t|] eqn:Et; [|reflexivity].
    destruct (Z.eqb_spec t 0) as [_|N]; [reflexivity|].
    destruct (Hx t eq_refl) as [|G]; [contradiction|].
    destruct (Z.ltb_spec t now); [lia | reflexivity].
Qed.

Lemma default_subscriber_in_every_audience_witness :
  let sb := mkSubBody (Some "https://push.example/new"%string) None in
  sb_endpoint sb = Some "https://push.example/new"%string /\
  str_truthy (Some "https://push.example/new"%string) = true /\
  In "priceDrops"%string ["flashSales"; "newArrivals"; "priceDrops"; "backInStock"]%string /\
  (forall t, sb_expirationTime sb = Some t -> t = 0 \/ t >= 1000) /\
  (let '(_, _, subs') := save_subscription "UTC" (Some sb) None [] in
   exists sub, endpoint sub = "https://push.example/new"%string /\
     In sub (filterEligibleSubscriptions (fun _ _ => 23 * 60)
               (filter (opted_in "priceDrops") subs') "priceDrops" 1000)).
Proof.
  intros sb.
  assert (Hx : forall t, sb_expirationTime sb = Some t -> t = 0 \/ t >= 1000)
    by (intros t H; discriminate).
  split; [reflexivity|]. split; [reflexivity|]. split; [simpl; tauto|]. split; [exact Hx|].
  exact (default_subscriber_in_every_audience "UTC" (fun _ _ => 23 * 60) sb _ [] "priceDrops" 1000
           eq_refl eq_refl (or_intror (or_intror (or_introl eq_refl))) Hx).
Defined.

(** ** Authentication *)

Lemma substring_whole (s : string) : substring 0 (String.length s) s = s.
Proof. induction s as [|a s IH]; simpl; [reflexivity|]. rewrite IH. reflexivity. Qed.

Lemma bearer_slice (t : string) :
  String.prefix "Bearer " ("Bearer " ++ t) = true /\
  substring (String.length "Bearer ") (String.length ("Bearer " ++ t) - String.length "Bearer ")
    ("Bearer " ++ t) = t.
Proof.
  split; [destruct t; reflexivity|]. simpl. rewrite Nat.sub_0_r. apply substring_whole.
Qed.

(** X9. A login request is answered 429, with no token, once the client
    has made 10 earlier requests to [/api/auth/login] in the current
    minute ([authLimiter]) or 1000 earlier requests to [/api/] in the
    current 15 minutes ([apiLimiter]), whatever the credentials.  Under
    both limits, only the configured admin email and password obtain a
    token (anything else is 401 with no token); a request carrying that
    token as [Authorization: Bearer <token>] passes [authenticate], and
    [GET /api/auth/me], under the [apiLimiter] limit, answers 200 with the
    admin email, as long as [jwt.verify] accepts the token it signed.  A
    header that does not start with ["Bearer "] is refused with 401
    without consulting [jwt.verify]. *)
Theorem login_then_me :
  forall (admin_email admin_password : string) (sign : string -> string)
         (verify : string -> option string),
  (forall em, verify (sign em) = Some em) ->
  (forall api_hits auth_hits email password,
     (apiLimiter_max <= api_hits \/ authLimiter_max <= auth_hits)%nat ->
     login admin_email admin_password sign api_hits auth_hits email password = (429, None)) /\
  (forall api_hits auth_hits, (api_hits < apiLimiter_max)%nat -> (auth_hits < authLimiter_max)%nat ->
     (forall email password,
        fst (login admin_email admin_password sign api_hits auth_hits email password) = 200 <->
        email = Some admin_email /\ password = Some admin_password) /\
     (forall email password,
        fst (login admin_email admin_password sign api_hits auth_hits email password) <> 200 ->
        login admin_email admin_password sign api_hits auth_hits email password = (401, None)) /\
     (exists token,
        login admin_email admin_password sign api_hits auth_hits (Some admin_email) (Some admin_password)
          = (200, Some token) /\
        forall api_hits', (api_hits' < apiLimiter_max)%nat ->
          auth_me verify api_hits' (Some ("Bearer " ++ token)%string) = (200, Some admin_email))) /\
  (forall api_hits h, (api_hits < apiLimiter_max)%nat -> String.prefix "Bearer " h = false ->
     forall verify' : string -> option string, auth_me verify' api_hits (Some h) = (401, None)) /\
  (forall api_hits authorization, (apiLimiter_max <= api_hits)%nat ->
     auth_me verify api_hits authorization = (429, None)).
Proof.
  intros ae ap sign verify Hv. split; [|split; [|split]].
  - intros api auth email password Hl. unfold login, over_limit.
    destruct Hl as [Hl|Hl].
    + rewrite (proj2 (Nat.leb_le _ _) Hl). reflexivity.
    + destruct (apiLimiter_max <=? api)%nat; [reflexivity|].
      rewrite (proj2 (Nat.leb_le _ _) Hl). reflexivity.
  - intros api auth Ha Hb.
    assert (L : forall email password, login ae ap sign api auth email password
              = match email, password with
                | Some em, Some pw =>
                    if String.eqb em ae && String.eqb pw ap then (200, Some (sign em)) else (401, None)
                | _, _ => (401, None)
                end).
    { intros email password. unfold login, over_limit.
      rewrite (proj2 (Nat.leb_gt _ _) Ha), (proj2 (Nat.leb_gt _ _) Hb). reflexivity. }
    split; [|split].
    + intros [em|] [pw|]; rewrite L; simpl;
        try (split; [discriminate | intros [H1 H2]; discriminate]).
      destruct (String.eqb_spec em ae) as [->|N1], (String.eqb_spec pw ap) as [->|N2]; simpl;
        split; try discriminate; try (intros [H1 H2]; congruence); auto.
    + intros [em|] [pw|]; rewrite L; simpl; try reflexivity.
      destruct (String.eqb em ae && String.eqb pw ap); simpl; [intros N; exfalso; apply N; reflexivity | reflexivity].
    + exists (sign ae). rewrite L, !String.eqb_refl. split; [reflexivity|].
      intros api' Ha'. unfold auth_me, over_limit. rewrite (proj2 (Nat.leb_gt _ _) Ha').
      unfold authenticate. destruct (bearer_slice (sign ae)) as [P S].
      rewrite P. simpl negb. cbv iota. rewrite S, Hv. reflexivity.
  - intros api h Ha Hp verify'. unfold auth_me, over_limit.
    rewrite (proj2 (Nat.leb_gt _ _) Ha). unfold authenticate. rewrite Hp. reflexivity.
  - intros api authorization Ha. unfold auth_me, over_limit.
    rewrite (proj2 (Nat.leb_le _ _) Ha). reflexivity.
Qed.

Lemma login_then_me_witness :
  (forall em : string, (fun t => Some t) ((fun e => e) em) = Some em) /\
  (0 < apiLimiter_max)%nat /\ (0 < authLimiter_max)%nat /\
  auth_me (fun t => Some t) 0 (Some ("Bearer " ++ "admin@example.com")%string)
    = (200, Some "admin@example.com"%string) /\
  login "admin@example.com" "flashsale" (fun e => e) 0 10
    (Some "admin@example.com"%string) (Some "flashsale"%string) = (429, None).
Proof.
  assert (Hv : forall em : string, (fun t => Some t) ((fun e => e) em) = Some em)
    by (intros em; reflexivity).
  split; [exact Hv|]. split; [vm_compute; lia|]. split; [vm_compute; lia|].
  destruct (login_then_me "admin@example.com" "flashsale" (fun e => e) (fun t => Some t) Hv)
    as (H429 & H & _).
  destruct (H 0%nat 0%nat ltac:(vm_compute; lia) ltac:(vm_compute; lia)) as (_ & _ & (token & L & M)).
  split.
  - simpl in L. injection L as <-. apply M. vm_compute. lia.
  - apply H429. right. vm_compute. lia.
Defined.

(** ** [POST /api/send-notification] *)

Lemma mark_sent_absent (id : string) (k a : nat) (cs : list Campaign) :
  (forall c, In c cs -> c_id c <> Some id) -> mark_sent id k a cs = cs.
Proof.
  induction cs as [|c r IH]; simpl; intros H; [reflexivity|].
  destruct (c_id c) as [i|] eqn:Ci.
  - destruct (String.eqb_spec i id) as [->|N].
    + exfalso. apply (H c (or_introl eq_refl)). exact Ci.
    + rewrite IH; [reflexivity|]. intros x Hx. apply H. right; exact Hx.
  - rewrite IH; [reflexivity|]. intros x Hx. apply H. right; exact Hx.
Qed.

Lemma mark_sent_fresh_last (id : string) (k a : nat) (cs : list Campaign) (doc : Campaign) :
  (forall c, In c cs -> c_id c <> Some id) -> c_id doc = Some id ->
  mark_sent id k a (cs ++ [doc])
  = cs ++ [mkCampaign (c_id doc) (c_title doc) (c_body doc) (c_category doc) (c_campaignId doc)
             (c_notificationId doc) (c_sendAt doc) Sent (Some k) (Some a)].
Proof.
  induction cs as [|c r IH]; simpl; intros H Hd.
  - rewrite Hd, String.eqb_refl. rewrite <- Hd. reflexivity.
  - destruct (c_id c) as [i|] eqn:Ci.
    + destruct (String.eqb_spec i id) as [->|N].
      * exfalso. apply (H c (or_introl eq_refl)). exact Ci.
      * rewrite IH; [reflexivity| |exact Hd]. intros x Hx. apply H. right; exact Hx.
    + rewrite IH; [reflexivity| |exact Hd]. intros x Hx. apply H. right; exact Hx.
Qed.

(** X10. [POST /api/send-notification] answers 429 and does nothing once
    the client has made 1000 earlier [/api/] requests in the current 15
    minutes, and otherwise 401 and does nothing without a valid bearer
    token.  Authenticated, and for a campaign [_id] not yet used by a
    stored campaign: without a (non-empty) category it answers 400 and
    does nothing.  Without [sendAt] it first pushes to every eligible
    subscriber of the category and then answers 200; it stores no campaign
    document and arms no timer.  With a [sendAt] between 1 ms and
    2147483647 ms ahead it answers 202, stores the campaign with status
    scheduled and arms one timer firing exactly at [sendAt].  With a
    [sendAt] already reached it answers 202 while the stored campaign is
    still scheduled and no push has been sent; no timer is armed, and once
    the dispatch started in the background completes the stored campaign
    is marked sent. *)
Theorem send_notification_paths :
  forall (lm : string -> Z -> Z) (po : string -> PushOutcome) (verify : string -> option string)
         (api_hits : nat) (auth : option string) (now : Z)
         (uc un nid : string) (b : NotifBody) (st : Sched),
  ((apiLimiter_max <= api_hits)%nat ->
     send_notification lm po verify api_hits auth now uc un nid b st = (429, st, st)) /\
  ((api_hits < apiLimiter_max)%nat -> authenticate verify auth = None ->
     send_notification lm po verify api_hits auth now uc un nid b st = (401, st, st)) /\
  (forall user, (api_hits < apiLimiter_max)%nat -> authenticate verify auth = Some user ->
   (forall c, In c (campaigns (sdb st)) -> c_id c <> Some nid) ->
   (str_truthy (nb_category b) = false ->
      send_notification lm po verify api_hits auth now uc un nid b st = (400, st, st)) /\
   (forall cat, nb_category b = Some cat -> str_truthy (Some cat) = true ->
     (nb_sendAt b = None ->
        let c := notification_campaign b cat uc un nid None in
        let '(code, st_reply, st_done) := send_notification lm po verify api_hits auth now uc un nid b st in
        code = 200 /\ st_reply = st_done /\
        campaigns (sdb st_reply) = campaigns (sdb st) /\ timers st_reply = timers st /\
        pushes (sdb st_reply) = pushes (sdb st) ++ map (fun sub => (endpoint sub, c))
          (filterEligibleSubscriptions lm (filter (opted_in cat) (subscriptions (sdb st))) cat now)) /\
     (forall t, nb_sendAt b = Some t -> 0 < t - now <= 2147483647 ->
        let doc := notification_campaign b cat uc un nid (Some t) in
        let db := sdb st in
        let st' := mkSched (mkDb (subscriptions db) (campaigns db ++ [doc]) (campaignEvents db) (pushes db))
                           (timers st ++ [(t, doc)]) (map_set nid (scheduledCampaigns st)) in
        send_notification lm po verify api_hits auth now uc un nid b st = (202, st', st')) /\
     (forall t, nb_sendAt b = Some t -> t <= now ->
        let doc := notification_campaign b cat uc un nid (Some t) in
        let db := sdb st in
        let '(code, st_reply, st_done) := send_notification lm po verify api_hits auth now uc un nid b st in
        code = 202 /\
        st_reply = mkSched (mkDb (subscriptions db) (campaigns db ++ [doc]) (campaignEvents db) (pushes db))
                           (timers st) (scheduledCampaigns st) /\
        timers st_done = timers st /\
        exists k a, campaigns (sdb st_done) = campaigns db ++
          [mkCampaign (Some nid) (c_title doc) (c_body doc) cat (c_campaignId doc)
             (c_notificationId doc) (Some t) Sent (Some k) (Some a)]))).
Proof.
  intros lm po verify api auth now uc un nid b st. split; [|split].
  - intros Ha. unfold send_notification, over_limit.
    rewrite (proj2 (Nat.leb_le _ _) Ha). reflexivity.
  - intros Ha Hu. unfold send_notification, over_limit.
    rewrite (proj2 (Nat.leb_gt _ _) Ha), Hu. reflexivity.
  - intros user Ha Hu Hf.
    assert (U : send_notification lm po verify api auth now uc un nid b st
              = match nb_category b with
                | Some cat =>
                    if str_truthy (Some cat) then
                      match nb_sendAt b with
                      | Some t =>
                          let doc := notification_campaign b cat uc un nid (Some t) in
                          let db := sdb st in
                          let st1 := mkSched (mkDb (subscriptions db) (campaigns db ++ [doc])
                                                   (campaignEvents db) (pushes db))
                                             (timers st) (scheduledCampaigns st) in
                          (202, schedule_returned lm po now doc st1,
                           scheduleCampaignDispatch lm po now doc st1)
                      | None =>
                          let c := notification_campaign b cat uc un nid None in
                          let st' := mkSched (dispatchCampaign lm po now c (sdb st))
                                             (timers st) (scheduledCampaigns st) in
                          (200, st', st')
                      end
                    else (400, st, st)
                | None => (400, st, st)
                end).
    { unfold send_notification, over_limit. rewrite (proj2 (Nat.leb_gt _ _) Ha), Hu. reflexivity. }
    rewrite U. split.
    + intros H. destruct (nb_category b) as [cat|]; [|reflexivity]. rewrite H. reflexivity.
    + intros cat Hc Ht. rewrite Hc, Ht. split; [|split].
      * intros Hs. rewrite Hs. set (c := notification_campaign b cat uc un nid None).
        destruct (dispatch_effect lm po now c (sdb st) nid eq_refl) as [P (k & _ & C)].
        split; [reflexivity|]. split; [reflexivity|]. split.
        -- simpl. rewrite C. apply mark_sent_absent. exact Hf.
        -- split; [reflexivity|]. simpl. rewrite P. reflexivity.
      * intros t Hs Hd. rewrite Hs. set (doc := notification_campaign b cat uc un nid (Some t)).
        unfold schedule_returned, scheduleCampaignDispatch. simpl c_sendAt. cbv beta iota zeta.
        rewrite (proj2 (Z.leb_gt (t - now) 0)) by lia.
        unfold node_timer_delay.
        rewrite (proj2 (Z.ltb_ge 2147483647 (t - now))) by lia.
        rewrite (proj2 (Z.ltb_ge (t - now) 1)) by lia. simpl.
        replace (now + (t - now)) with t by lia. reflexivity.
      * intros t Hs Hd. rewrite Hs. set (doc := notification_campaign b cat uc un nid (Some t)).
        unfold schedule_returned, scheduleCampaignDispatch. simpl c_sendAt. cbv beta iota zeta.
        rewrite (proj2 (Z.leb_le (t - now) 0)) by lia.
        set (db1 := mkDb (subscriptions (sdb st)) (campaigns (sdb st) ++ [doc])
                         (campaignEvents (sdb st)) (pushes (sdb st))).
        destruct (dispatch_effect lm po now doc db1 nid eq_refl) as [_ (k & _ & C)].
        split; [reflexivity|]. split; [reflexivity|]. split; [reflexivity|]. eexists k, _. simpl sdb.
        rewrite C. simpl campaigns. rewrite mark_sent_fresh_last by (exact Hf || reflexivity).
        reflexivity.
Qed.

Lemma send_notification_paths_witness :
  let verify := fun t : string => if String.eqb t "tok" then Some "admin@example.com"%string else None in
  let st := mkSched (mkDb [] [] [] []) [] [] in
  let b := mkNotifBody None None (Some "flashSales"%string) (Some 500) None None in
  let doc := notification_campaign b "flashSales" "u1" "u2" "n1" (Some 500) in
  (0 < apiLimiter_max)%nat /\
  authenticate verify (Some "Bearer tok"%string) = Some "admin@example.com"%string /\
  (forall c, In c (campaigns (sdb st)) -> c_id c <> Some "n1"%string) /\
  nb_category b = Some "flashSales"%string /\ str_truthy (Some "flashSales"%string) = true /\
  nb_sendAt b = Some 500 /\ 500 <= 1000 /\
  fst (fst (send_notification (fun _ _ => 0) (fun _ => PushDelivered) verify 0
              (Some "Bearer tok"%string) 1000 "u1" "u2" "n1" b st)) = 202 /\
  snd (fst (send_notification (fun _ _ => 0) (fun _ => PushDelivered) verify 0
              (Some "Bearer tok"%string) 1000 "u1" "u2" "n1" b st))
  = mkSched (mkDb [] [doc] [] []) [] [].
Proof.
  intros verify st b doc.
  assert (Hf : forall c, In c (campaigns (sdb st)) -> c_id c <> Some "n1"%string)
    by (intros c []).
  assert (Ha : authenticate verify (Some "Bearer tok"%string) = Some "admin@example.com"%string)
    by reflexivity.
  split; [vm_compute; lia|]. split; [exact Ha|].
  split; [exact Hf|]. split; [reflexivity|]. split; [reflexivity|]. split; [reflexivity|].
  split; [lia|].
  destruct (send_notification_paths (fun _ _ => 0) (fun _ => PushDelivered) verify 0
              (Some "Bearer tok"%string) 1000 "u1" "u2" "n1" b st) as (_ & _ & H).
  destruct (H _ ltac:(vm_compute; lia) Ha Hf) as [_ H1].
  destruct (H1 "flashSales"%string eq_refl eq_refl) as (_ & _ & H3).
  specialize (H3 500 eq_refl ltac:(lia)). cbv zeta in H3.
  destruct (send_notification (fun _ _ => 0) (fun _ => PushDelivered) verify 0
              (Some "Bearer tok"%string) 1000 "u1" "u2" "n1" b st) as [[code st_reply] st_done].
  destruct H3 as (E1 & E2 & _). split; [exact E1|]. exact E2.
Defined.

(** ** Scheduler *)

Lemma dispatch_pushes (lm : string -> Z -> Z) (po : string -> PushOutcome) (now : Z)
  (c : Campaign) (db : Db) :
  pushes (dispatchCampaign lm po now c db)
  = pushes db ++ map (fun sub => (endpoint sub, c))
      (filterEligibleSubscriptions lm (filter (opted_in (c_category c)) (subscriptions db))
         (c_category c) now).
Proof.
  unfold dispatchCampaign.
  destruct (send_all_effect lm po (filterEligibleSubscriptions lm
     (filter (opted_in (c_category c)) (subscriptions db)) (c_category c) now) c db)
    as (Hp & _ & _).
  destruct (send_all po _ c db) as [results db1]. simpl in Hp.
  match goal with
  | |- context [recordCampaignEvent ?e db1] =>
      destruct (recordCampaignEvent_fields e db1) as (_ & R & _)
  end.
  destruct (c_id c); simpl; rewrite R; exact Hp.
Qed.

Lemma filter_filter_andb {A} (f g : A -> bool) (l : list A) :
  filter g (filter f l) = filter (fun x => f x && g x) l.
Proof.
  induction l as [|x r IH]; simpl; [reflexivity|].
  destruct (f x); simpl; [destruct (g x); simpl; rewrite IH; reflexivity | exact IH].
Qed.

Section BootstrapProofs.

Variable lm : string -> Z -> Z.
Variable po : string -> PushOutcome.
Variable now : Z.

Lemma fold_schedule_timers (L : list Campaign) (st : Sched) :
  timers (fold_left (fun acc c => scheduleCampaignDispatch lm po now c acc) L st)
  = timers st ++ map (fun c => (timer_due now c, c)) (filter (armed_later now) L).
Proof.
  revert st. induction L as [|c r IH]; intros st; simpl; [rewrite app_nil_r; reflexivity|].
  rewrite IH. unfold scheduleCampaignDispatch.
  destruct (c_sendAt c) as [t|] eqn:E; cbv beta delta [armed_later timer_due]; cbn [filter map]; rewrite E.
  - destruct (t - now <=? 0); simpl; [reflexivity|]. rewrite ?E, <- app_assoc. reflexivity.
  - simpl. rewrite ?E, <- app_assoc. reflexivity.
Qed.

Lemma fold_schedule_pushes (L : list Campaign) (st : Sched) :
  (forall c, In c L -> exists t, c_sendAt c = Some t /\ now <= t) ->
  forall p, In p (pushes (sdb (fold_left (fun acc c => scheduleCampaignDispatch lm po now c acc) L st))) ->
  In p (pushes (sdb st)) \/ (In (snd p) L /\ c_sendAt (snd p) = Some now).
Proof.
  revert st. induction L as [|c r IH]; intros st HL p Hp; simpl in Hp; [left; exact Hp|].
  apply IH in Hp; [|intros x Hx; apply HL; right; exact Hx].
  destruct Hp as [Hp|[Hin Hs]]; [|right; split; [right; exact Hin | exact Hs]].
  destruct (HL c (or_introl eq_refl)) as (t & Ht & Le).
  unfold scheduleCampaignDispatch in Hp. rewrite Ht in Hp.
  destruct (Z.leb_spec (t - now) 0) as [L0|L0]; simpl in Hp; [|left; exact Hp].
  rewrite dispatch_pushes in Hp. apply in_app_or in Hp. destruct Hp as [Hp|Hp]; [left; exact Hp|].
  apply in_map_iff in Hp. destruct Hp as (sub & <- & _). right. simpl.
  split; [left; reflexivity|]. rewrite Ht. f_equal. lia.
Qed.

End BootstrapProofs.

(** X11. After a restart, [bootstrapCampaignScheduler] arms exactly one
    timer per stored campaign whose status is scheduled and whose [sendAt]
    is strictly later than now, in stored order, each due at
    [now + node_timer_delay (sendAt - now)]: one due within 2147483647 ms
    fires exactly at its [sendAt].  A scheduled campaign whose [sendAt]
    passed while the server was down gets no timer, and the bootstrap
    sends no push for it: the only pushes it sends are for campaigns whose
    [sendAt] is exactly now. *)
Theorem bootstrap_rearms_future_only :
  forall (lm : string -> Z -> Z) (po : string -> PushOutcome) (now : Z) (st : Sched),
  let st' := bootstrapCampaignScheduler lm po now (restart st) in
  timers st' = map (fun c => (timer_due now c, c)) (filter (rearmed now) (campaigns (sdb st))) /\
  (forall c t, In c (campaigns (sdb st)) -> c_status c = Scheduled -> c_sendAt c = Some t ->
     0 < t - now <= 2147483647 -> In (t, c) (timers st')) /\
  (forall c t, c_sendAt c = Some t -> t < now -> ~ In c (map snd (timers st'))) /\
  (forall p, In p (pushes (sdb st')) -> In p (pushes (sdb st)) \/ c_sendAt (snd p) = Some now).
Proof.
  intros lm po now st st'.
  assert (T : timers st' = map (fun c => (timer_due now c, c)) (filter (rearmed now) (campaigns (sdb st)))).
  { unfold st', bootstrapCampaignScheduler. rewrite fold_schedule_timers. simpl.
    rewrite filter_filter_andb. f_equal. apply filter_ext. intros c.
    unfold upcoming, armed_later, rearmed.
    destruct (c_status c), (c_sendAt c) as [t|]; simpl; try reflexivity.
    destruct (Z.leb_spec now t), (Z.leb_spec (t - now) 0), (Z.ltb_spec now t); simpl; lia. }
  split; [exact T|]. split; [|split].
  - intros c t Hin Hs Ht Hd. rewrite T. apply in_map_iff. exists c. split.
    + unfold timer_due. rewrite Ht. unfold node_timer_delay.
      rewrite (proj2 (Z.ltb_ge 2147483647 (t - now))) by lia.
      rewrite (proj2 (Z.ltb_ge (t - now) 1)) by lia. simpl. f_equal. lia.
    + apply filter_In. split; [exact Hin|]. unfold rearmed. rewrite Hs, Ht.
      apply Z.ltb_lt. lia.
  - intros c t Ht Hl Hin. rewrite T, map_map in Hin. simpl in Hin. rewrite map_id in Hin.
    apply filter_In in Hin. destruct Hin as [_ R]. unfold rearmed in R. rewrite Ht in R.
    destruct (c_status c); [apply Z.ltb_lt in R; lia | discriminate].
  - intros p Hp. unfold st', bootstrapCampaignScheduler in Hp.
    apply fold_schedule_pushes in Hp.
    + destruct Hp as [Hp|[_ Hs]]; [left; exact Hp | right; exact Hs].
    + intros c Hc. apply filter_In in Hc. destruct Hc as [_ U]. unfold upcoming in U.
      destruct (c_status c), (c_sendAt c) as [t|]; try discriminate.
      exists t. split; [reflexivity|]. apply Z.leb_le. exact U.
Qed.

Lemma bootstrap_rearms_future_only_witness :
  let later := mkCampaign (Some "a"%string) "t" "b" "flashSales" None None (Some 5000) Scheduled None None in
  let missed := mkCampaign (Some "m"%string) "t" "b" "flashSales" None None (Some 500) Scheduled None None in
  let st := mkSched (mkDb [] [later; missed] [] []) [] [] in
  In later (campaigns (sdb st)) /\ 0 < 5000 - 1000 <= 2147483647 /\
  In (5000, later) (timers (bootstrapCampaignScheduler (fun _ _ => 0) (fun _ => PushDelivered) 1000 (restart st))) /\
  ~ In missed (map snd (timers (bootstrapCampaignScheduler (fun _ _ => 0) (fun _ => PushDelivered) 1000 (restart st)))).
Proof.
  intros later missed st.
  destruct (bootstrap_rearms_future_only (fun _ _ => 0) (fun _ => PushDelivered) 1000 st)
    as (_ & H2 & H3 & _).
  split; [left; reflexivity|]. split; [lia|]. split.
  - apply (H2 later 5000); [left; reflexivity | reflexivity | reflexivity | lia].
  - apply (H3 missed 500); [reflexivity | lia].
Defined.

(** ** Quiet-hours bounds *)

Lemma digit_char (k : nat) :
  (k < 10)%nat ->
  is_digit (ascii_of_nat (48 + k)) = true /\ digit_value (ascii_of_nat (48 + k)) = Z.of_nat k.
Proof.
  intros Hk. unfold is_digit, digit_value.
  rewrite nat_ascii_embedding by lia. split.
  - apply andb_true_iff. split; apply Nat.leb_le; lia.
  - lia.
Qed.

Lemma minutesFromHHMM_hhmm (h m : nat) :
  (h < 100)%nat -> (m < 100)%nat ->
  minutesFromHHMM (Some (hhmm h m)) = Some (Z.of_nat h * 60 + Z.of_nat m).
Proof.
  intros Hh Hm.
  assert (Q1 : (h / 10 < 10)%nat) by (apply Nat.Div0.div_lt_upper_bound; lia).
  assert (Q2 : (m / 10 < 10)%nat) by (apply Nat.Div0.div_lt_upper_bound; lia).
  assert (R1 : (h mod 10 < 10)%nat) by (apply Nat.mod_upper_bound; lia).
  assert (R2 : (m mod 10 < 10)%nat) by (apply Nat.mod_upper_bound; lia).
  destruct (digit_char _ Q1) as [D1 V1], (digit_char _ Q2) as [D2 V2],
           (digit_char _ R1) as [D3 V3], (digit_char _ R2) as [D4 V4].
  unfold hhmm, two_digits.
  set (x1 := ascii_of_nat (48 + h / 10)) in *. set (x2 := ascii_of_nat (48 + h mod 10)) in *.
  set (x3 := ascii_of_nat (48 + m / 10)) in *. set (x4 := ascii_of_nat (48 + m mod 10)) in *.
  cbn [append minutesFromHHMM]. rewrite D1, D3, D2, D4. cbn [andb].
  rewrite V1, V2, V3, V4, Ascii.eqb_refl. cbn [andb]. f_equal.
  pose proof (Nat.div_mod_eq h 10). pose proof (Nat.div_mod_eq m 10).
  set (a := (h / 10)%nat) in *. set (b := (h mod 10)%nat) in *.
  set (c := (m / 10)%nat) in *. set (d := (m mod 10)%nat) in *. lia.
Qed.

(** X12. [minutesFromHHMM] checks the shape [DD:DD] only, not the range of
    the fields: any two-digit hours [h] and minutes [m] (up to 99) parse to
    [h * 60 + m], so ["24:00"] is minute 1440 and ["99:99"] is minute
    6039, past the end of the day. *)
Theorem minutesFromHHMM_no_range_check (h m : nat) :
  (h < 100)%nat -> (m < 100)%nat ->
  minutesFromHHMM (Some (hhmm h m)) = Some (Z.of_nat h * 60 + Z.of_nat m).
Proof. exact (minutesFromHHMM_hhmm h m). Qed.

Lemma minutesFromHHMM_no_range_check_witness :
  hhmm 24 0 = "24:00"%string /\ minutesFromHHMM (Some (hhmm 24 0)) = Some 1440.
Proof.
  split; [vm_compute; reflexivity|].
  exact (minutesFromHHMM_no_range_check 24 0 ltac:(lia) ltac:(lia)).
Defined.

(** X13. Two edge windows of [isWithinQuietHours]: equal bounds
    [start = end] ([HH:MM] with any two-digit fields) give an empty window,
    so such a subscription is never inside its quiet hours, whatever the
    time; the window ["00:00"]-["24:00"], when enabled, covers every local
    minute of the day. *)
Theorem quiet_hours_edge_windows :
  (forall (lm : string -> Z -> Z) (p : Preferences) (q : QuietHours) (now : Z) (h m : nat),
     quietHours p = Some q -> (h < 100)%nat -> (m < 100)%nat ->
     qh_start q = Some (hhmm h m) -> qh_end q = Some (hhmm h m) ->
     isWithinQuietHours lm p now = false) /\
  (forall (lm : string -> Z -> Z) (p : Preferences) (q : QuietHours) (now : Z),
     quietHours p = Some q -> qh_enabled q = true ->
     qh_start q = Some "00:00"%string -> qh_end q = Some "24:00"%string ->
     0 <= lm (timezone_or_utc (qh_timezone q)) now < 1440 ->
     isWithinQuietHours lm p now = true).
Proof.
  split.
  - intros lm p q now h m Hq Hh Hm Hs He. unfold isWithinQuietHours. rewrite Hq.
    destruct (qh_enabled q); [|reflexivity]. cbn [negb].
    rewrite Hs, He, (minutesFromHHMM_hhmm h m Hh Hm), Z.leb_refl.
    apply andb_false_iff.
    destruct (Z.leb_spec (Z.of_nat h * 60 + Z.of_nat m) (lm (timezone_or_utc (qh_timezone q)) now));
      [right; apply Z.ltb_ge; lia | left; reflexivity].
  - intros lm p q now Hq En Hs He Hc. unfold isWithinQuietHours. rewrite Hq, En, Hs, He.
    cbn [negb]. vm_compute minutesFromHHMM.
    apply andb_true_iff. split; [apply Z.leb_le | apply Z.ltb_lt]; lia.
Qed.

Lemma quiet_hours_edge_windows_witness :
  let q := mkQuiet true (Some "22:00"%string) (Some "22:00"%string) None in
  let q' := mkQuiet true (Some "00:00"%string) (Some "24:00"%string) None in
  isWithinQuietHours (fun _ _ => 22 * 60 + 30) (mkPrefs [] (Some q) None) 0 = false /\
  isWithinQuietHours (fun _ _ => 3 * 60) (mkPrefs [] (Some q') None) 0 = true.
Proof.
  intros q q'. split.
  - apply ((proj1 quiet_hours_edge_windows) (fun _ _ => 22 * 60 + 30) (mkPrefs [] (Some q) None) q 0 22%nat 0%nat);
      try reflexivity; lia.
  - apply ((proj2 quiet_hours_edge_windows) (fun _ _ => 3 * 60) (mkPrefs [] (Some q') None) q' 0);
      try reflexivity. simpl. lia.
Defined.

(** ** Dead subscriptions removed by a dispatch *)

Lemma existsb_count_ep (e : string) (l : list Subscription) :
  existsb (fun s => String.eqb (endpoint s) e) l = true <->
  (0 < length (filter (fun s => String.eqb (endpoint s) e) l))%nat.
Proof.
  induction l as [|x r IH]; simpl; [split; [discriminate | lia]|].
  destruct (String.eqb (endpoint x) e); simpl; [split; [lia | reflexivity] | exact IH].
Qed.

Lemma delete_one_count (e e' : string) (subs : list Subscription) :
  length (filter (fun s => String.eqb (endpoint s) e') (snd (delete_one e subs)))
  = (length (filter (fun s => String.eqb (endpoint s) e') subs)
     - if String.eqb e e' && existsb (fun s => String.eqb (endpoint s) e) subs then 1 else 0)%nat.
Proof.
  induction subs as [|x r IH]; simpl; [destruct (String.eqb e e'); reflexivity|].
  destruct (String.eqb_spec (endpoint x) e) as [Ex|Ex]; simpl.
  - rewrite andb_true_r. subst e.
    destruct (String.eqb (endpoint x) e'); simpl; lia.
  - destruct (delete_one e r) as [d r'] eqn:D. simpl in *.
    destruct (String.eqb_spec e e') as [<-|Ne]; simpl in *.
    + destruct (String.eqb_spec (endpoint x) e); [contradiction|]. simpl.
      destruct (existsb (fun s => String.eqb (endpoint s) e) r) eqn:X; [|lia].
      apply existsb_count_ep in X. lia.
    + destruct (String.eqb (endpoint x) e'); simpl; lia.
Qed.

Lemma delete_one_length (e : string) (subs : list Subscription) :
  length (snd (delete_one e subs))
  = (length subs - if existsb (fun s => String.eqb (endpoint s) e) subs then 1 else 0)%nat.
Proof.
  induction subs as [|x r IH]; simpl; [reflexivity|].
  destruct (String.eqb (endpoint x) e); simpl; [lia|].
  destruct (delete_one e r) as [d r']. simpl in *. rewrite IH.
  destruct (existsb (fun s => String.eqb (endpoint s) e) r) eqn:X; [|lia].
  apply existsb_count_ep in X.
  assert (L : (length (filter (fun s => String.eqb (endpoint s) e) r) <= length r)%nat).
  { clear. induction r as [|y r IH]; simpl; [lia|]. destruct (String.eqb (endpoint y) e); simpl; lia. }
  lia.
Qed.

Lemma delete_one_incl (e : string) (subs : list Subscription) (s : Subscription) :
  In s (snd (delete_one e subs)) -> In s subs.
Proof.
  induction subs as [|x r IH]; simpl; [tauto|].
  destruct (String.eqb (endpoint x) e); [intros H; right; exact H|].
  destruct (delete_one e r) as [d r']. simpl in *. intros [H|H]; [left; exact H | right; auto].
Qed.

Lemma delete_one_keeps (e : string) (subs : list Subscription) (s : Subscription) :
  In s subs -> endpoint s <> e -> In s (snd (delete_one e subs)).
Proof.
  induction subs as [|x r IH]; simpl; [tauto|]. intros H Ne.
  destruct (String.eqb_spec (endpoint x) e) as [Ex|Ex].
  - destruct H as [<-|H]; [contradiction | exact H].
  - destruct (delete_one e r) as [d r']. simpl in *.
    destruct H as [H|H]; [left; exact H | right; auto].
Qed.

Lemma delete_gone_incl (po : string -> PushOutcome) (l subs : list Subscription) (s : Subscription) :
  In s (delete_gone po l subs) -> In s subs.
Proof.
  unfold delete_gone. revert subs. induction l as [|x r IH]; simpl; intros subs H; [exact H|].
  apply IH in H. destruct (push_gone (po (endpoint x))); [|exact H].
  eapply delete_one_incl; exact H.
Qed.

Lemma delete_gone_keeps (po : string -> PushOutcome) (l subs : list Subscription) (s : Subscription) :
  In s subs -> ~ In (endpoint s) (map endpoint l) -> In s (delete_gone po l subs).
Proof.
  unfold delete_gone. revert subs. induction l as [|x r IH]; simpl; intros subs H Hn; [exact H|].
  apply IH; [|tauto]. destruct (push_gone (po (endpoint x))); [|exact H].
  apply delete_one_keeps; [exact H|]. intros E. apply Hn. left. congruence.
Qed.

Lemma delete_gone_length (po : string -> PushOutcome) (l subs : list Subscription) :
  (forall e, length (filter (fun s => String.eqb (endpoint s) e) l)
             <= length (filter (fun s => String.eqb (endpoint s) e) subs))%nat ->
  length (delete_gone po l subs)
  = (length subs - length (filter (fun x => push_gone (po (endpoint x))) l))%nat.
Proof.
  unfold delete_gone. revert subs. induction l as [|x r IH]; simpl; intros subs H; [lia|].
  destruct (push_gone (po (endpoint x))) eqn:G; simpl.
  - assert (X : existsb (fun s => String.eqb (endpoint s) (endpoint x)) subs = true).
    { apply existsb_count_ep. specialize (H (endpoint x)). simpl in H.
      rewrite String.eqb_refl in H. simpl in H. lia. }
    rewrite IH.
    + rewrite delete_one_length, X. lia.
    + intros e. rewrite delete_one_count, X, andb_true_r. specialize (H e). simpl in H.
      destruct (String.eqb (endpoint x) e); simpl in *; lia.
  - apply IH. intros e. specialize (H e). simpl in H.
    destruct (String.eqb (endpoint x) e); simpl in *; lia.
Qed.

Lemma filter_count_le (f : Subscription -> bool) (e : string) (l : list Subscription) :
  (length (filter (fun s => String.eqb (endpoint s) e) (filter f l))
   <= length (filter (fun s => String.eqb (endpoint s) e) l))%nat.
Proof.
  induction l as [|x r IH]; simpl; [lia|].
  destruct (f x); simpl; destruct (String.eqb (endpoint x) e); simpl; lia.
Qed.

Lemma send_all_subscriptions (po : string -> PushOutcome) (l : list Subscription)
  (c : Campaign) (db : Db) :
  subscriptions (snd (send_all po l c db)) = delete_gone po l (subscriptions db).
Proof.
  revert db. induction l as [|sub r IH]; intros db; simpl; [reflexivity|].
  unfold sendWebPush, delete_gone. simpl.
  destruct (po (endpoint sub)) as [|code] eqn:Po;
    [|destruct ((code =? 410) || (code =? 404)) eqn:G];
  match goal with
  | |- context [send_all po r c ?d] =>
      pose proof (IH d) as H1; destruct (send_all po r c d) as [oks db2]; simpl in *
  end;
  rewrite H1; unfold delete_gone; simpl; rewrite ?G; reflexivity.
Qed.

Lemma dispatch_subscriptions (lm : string -> Z -> Z) (po : string -> PushOutcome) (now : Z)
  (c : Campaign) (db : Db) :
  subscriptions (dispatchCampaign lm po now c db)
  = delete_gone po (filterEligibleSubscriptions lm
      (filter (opted_in (c_category c)) (subscriptions db)) (c_category c) now) (subscriptions db).
Proof.
  unfold dispatchCampaign.
  pose proof (send_all_subscriptions po (filterEligibleSubscriptions lm
      (filter (opted_in (c_category c)) (subscriptions db)) (c_category c) now) c db) as S.
  destruct (send_all po _ c db) as [results db1]. simpl in S.
  match goal with
  | |- context [recordCampaignEvent ?e db1] =>
      destruct (recordCampaignEvent_fields e db1) as (_ & _ & R)
  end.
  destruct (c_id c); simpl; rewrite R; exact S.
Qed.

(** X14. [dispatchCampaign] deletes, for each eligible subscriber whose
    push was answered 410 or 404, the first stored subscription with its
    endpoint ([deleteOne]): exactly one stored subscription per such push,
    and nothing else.  A stored subscription whose endpoint received no
    push (opted out, muted, in quiet hours or expired) is kept even if the
    endpoint is dead, a push failing with another status deletes nothing,
    and no subscription is added. *)
Theorem dispatch_removes_gone_subscriptions :
  forall (lm : string -> Z -> Z) (po : string -> PushOutcome) (now : Z) (c : Campaign) (db : Db),
  let eligibles := filterEligibleSubscriptions lm
                     (filter (opted_in (c_category c)) (subscriptions db)) (c_category c) now in
  let subs' := subscriptions (dispatchCampaign lm po now c db) in
  subs' = delete_gone po eligibles (subscriptions db) /\
  length subs' = (length (subscriptions db)
                  - length (filter (fun x => push_gone (po (endpoint x))) eligibles))%nat /\
  (forall s, In s (subscriptions db) -> ~ In (endpoint s) (map endpoint eligibles) -> In s subs') /\
  (forall s, In s subs' -> In s (subscriptions db)).
Proof.
  intros lm po now c db eligibles subs'.
  assert (E : subs' = delete_gone po eligibles (subscriptions db)) by apply dispatch_subscriptions.
  split; [exact E|]. split; [|split].
  - rewrite E. apply delete_gone_length. intros e. unfold eligibles, filterEligibleSubscriptions.
    etransitivity; apply filter_count_le.
  - intros s Hs Hn. rewrite E. apply delete_gone_keeps; assumption.
  - intros s Hs. rewrite E in Hs. eapply delete_gone_incl; exact Hs.
Qed.

Lemma dispatch_removes_gone_subscriptions_witness :
  let pr := mkPrefs [("flashSales"%string, true)] None None in
  let dead := mkSub "https://push/dead" None (Some pr) in
  let off := mkSub "https://push/off" None (Some (mkPrefs [("flashSales"%string, false)] None None)) in
  let c := mkCampaign (Some "c1"%string) "t" "b" "flashSales" None None None Scheduled None None in
  let po := fun _ : string => PushFailed 410 in
  let db := mkDb [dead; off] [c] [] [] in
  In off (subscriptions db) /\
  ~ In (endpoint off) (map endpoint (filterEligibleSubscriptions (fun _ _ => 0)
       (filter (opted_in (c_category c)) (subscriptions db)) (c_category c) 0)) /\
  In off (subscriptions (dispatchCampaign (fun _ _ => 0) po 0 c db)) /\
  subscriptions (dispatchCampaign (fun _ _ => 0) po 0 c db) = [off].
Proof.
  intros pr dead off c po db.
  destruct (dispatch_removes_gone_subscriptions (fun _ _ => 0) po 0 c db) as (E & _ & K & _).
  assert (N : ~ In (endpoint off) (map endpoint (filterEligibleSubscriptions (fun _ _ => 0)
       (filter (opted_in (c_category c)) (subscriptions db)) (c_category c) 0))).
  { vm_compute. intros [H|H]; [discriminate H | exact H]. }
  split; [right; left; reflexivity|]. split; [exact N|]. split.
  - apply K; [right; left; reflexivity | exact N].
  - rewrite E. vm_compute. reflexivity.
Defined.

(** ** Enqueue from a page *)

Lemma store_put_length (it : QueueItem) (st : Store) :
  StronglySorted id_lt st ->
  length (store_put it st)
  = (length st + if existsb (fun x => String.eqb (qid x) (qid it)) st then 0 else 1)%nat.
Proof.
  induction st as [|x r IH]; simpl; intros H; [reflexivity|].
  inversion H as [|? ? Hr Hall]; subst. rewrite Forall_forall in Hall.
  destruct (String.compare (qid it) (qid x)) eqn:E; simpl.
  - apply compare_eq_iff' in E. rewrite E, String.eqb_refl. simpl. lia.
  - assert (N : existsb (fun y => String.eqb (qid y) (qid it)) (x :: r) = false).
    { apply not_true_iff_false. intros X. apply existsb_exists in X.
      destruct X as (y & Hy & X). apply String.eqb_eq in X.
      destruct Hy as [<-|Hy].
      - apply compare_lt_neq in E. congruence.
      - pose proof (compare_lt_trans _ _ _ E (Hall y Hy)) as L.
        apply compare_lt_neq in L. congruence. }
    simpl in N. rewrite N. lia.
  - destruct (String.eqb_spec (qid x) (qid it)) as [E'|E'].
    + rewrite E', (proj2 (compare_eq_iff' _ _) eq_refl) in E. discriminate.
    + simpl. rewrite IH by exact Hr. reflexivity.
Qed.

(** X15. A [QUEUE_CHECKOUT] message stores the payload and posts one
    [CHECKOUT_SYNC_PENDING] message whose count is the number of queued
    checkouts before it, plus one unless a checkout with the same order id
    was already queued; it starts no replay pass and sends nothing to the
    server.  A [CHECKOUT_SYNC_STATUS_REQUEST] posts the current count and
    changes nothing else. *)
Theorem queue_checkout_reports_count (now : Z) (p : Payload) (w : Worker) :
  ids_sorted (store (wstate w)) = true ->
  let w' := handle_event now (QUEUE_CHECKOUT p) w in
  outbox (wstate w') = outbox (wstate w) ++
    [CHECKOUT_SYNC_PENDING (length (store (wstate w))
       + if existsb (fun x => String.eqb (qid x) (order_id p)) (store (wstate w)) then 0 else 1)] /\
  passes w' = passes w /\ posted (wstate w') = posted (wstate w) /\
  handle_event now CHECKOUT_SYNC_STATUS_REQUEST w
  = mkWorker (mkSw (store (wstate w)) (outbox (wstate w)
                 ++ [CHECKOUT_SYNC_PENDING (length (store (wstate w)))]) (posted (wstate w)))
             (passes w).
Proof.
  intros H w'. split; [|split; [|split]]; try reflexivity.
  unfold w', handle_event, sendQueueStatus, enqueueCheckout, broadcastMessage,
    getAllQueuedCheckouts, store_getAll, set_store. simpl.
  rewrite store_put_length by (apply ids_sorted_strongly; exact H). reflexivity.
Qed.

Lemma queue_checkout_reports_count_witness :
  let p := mkPayload "order-2" "{}" in
  let w := mkWorker (mkSw [mkItem "order-1" (mkPayload "order-1" "{}") 0] [] []) [] in
  ids_sorted (store (wstate w)) = true /\
  outbox (wstate (handle_event 10 (QUEUE_CHECKOUT p) w)) = [CHECKOUT_SYNC_PENDING 2].
Proof.
  intros p w. split; [reflexivity|].
  exact (proj1 (queue_checkout_reports_count 10 p w eq_refl)).
Defined.

(** ** Sale endpoints *)

(** X16. [start-sale] and [end-sale] answer 429 and change nothing once
    the client has made 1000 earlier [/api/] requests in the current 15
    minutes.  Under that limit they answer 401 and change nothing without
    a valid bearer token.  Authenticated, [start-sale] answers 400 and
    changes nothing unless [discount] is a number in (0, 100]; with such a
    [discount] it answers 200, makes the sale active with that discount,
    pushes the flash-sale payload once to each eligible [flashSales]
    subscriber, deletes, for each push answered 410 or 404, the first
    stored subscription with that endpoint, records one [deliver] event
    with the audience size, and stores no campaign document.  [end-sale]
    makes the sale inactive with discount 0, which [sale-status] then
    reports, and changes no collection. *)
Theorem sale_endpoints_effects :
  forall (lm : string -> Z -> Z) (po : string -> PushOutcome) (verify : string -> option string)
         (show_number : Z -> string) (api_hits : nat) (now : Z) (auth : option string)
         (uuid : string) (s : SaleSrv),
  ((apiLimiter_max <= api_hits)%nat ->
     (forall dv, start_sale lm po verify show_number api_hits now auth dv uuid s = (429, s)) /\
     end_sale verify api_hits auth s = (429, s)) /\
  ((api_hits < apiLimiter_max)%nat -> authenticate verify auth = None ->
     (forall dv, start_sale lm po verify show_number api_hits now auth dv uuid s = (401, s)) /\
     end_sale verify api_hits auth s = (401, s)) /\
  (forall user, (api_hits < apiLimiter_max)%nat -> authenticate verify auth = Some user ->
     (forall dv, (forall d, dv = Some (JNum d) -> d <= 0 \/ 100 < d) ->
        start_sale lm po verify show_number api_hits now auth dv uuid s = (400, s)) /\
     (forall d, 0 < d <= 100 ->
        let eligible := filterEligibleSubscriptions lm
                          (filter (opted_in "flashSales") (subscriptions (sale_db s))) "flashSales" now in
        let r := start_sale lm po verify show_number api_hits now auth (Some (JNum d)) uuid s in
        fst r = 200 /\ currentSale (snd r) = mkSale true d /\
        pushes (sale_db (snd r))
          = pushes (sale_db s) ++ map (fun sub => (endpoint sub, flash_sale_payload show_number d uuid)) eligible /\
        subscriptions (sale_db (snd r)) = delete_gone po eligible (subscriptions (sale_db s)) /\
        campaigns (sale_db (snd r)) = campaigns (sale_db s) /\
        sale_events (snd r) = sale_events s ++ [(uuid, length eligible)]) /\
     end_sale verify api_hits auth s = (200, mkSaleSrv (mkSale false 0) (sale_db s) (sale_events s)) /\
     forall api_hits', (api_hits' < apiLimiter_max)%nat ->
       sale_status api_hits' (snd (end_sale verify api_hits auth s)) = (200, Some (mkSale false 0))).
Proof.
  intros lm po verify show_number api now auth uuid s. split; [|split].
  - intros Ha. unfold start_sale, end_sale, over_limit. rewrite (proj2 (Nat.leb_le _ _) Ha).
    split; [intros; reflexivity | reflexivity].
  - intros Ha Hu. unfold start_sale, end_sale, over_limit. rewrite (proj2 (Nat.leb_gt _ _) Ha), Hu.
    split; [intros; reflexivity | reflexivity].
  - intros user Hl Ha.
    assert (Lt : over_limit apiLimiter_max api = false) by (apply Nat.leb_gt; exact Hl).
    split; [|split].
    + intros dv Hd. unfold start_sale. rewrite Lt, Ha.
      destruct dv as [[| d | | |]|]; try reflexivity.
      destruct (Hd d eq_refl) as [L|L].
      * rewrite (proj2 (Z.leb_le d 0) L). reflexivity.
      * rewrite (proj2 (Z.ltb_lt 100 d) L), orb_true_r. reflexivity.
    + intros d Hd eligible r. unfold r, start_sale. rewrite Lt, Ha.
      rewrite (proj2 (Z.leb_gt d 0)) by lia. rewrite (proj2 (Z.ltb_ge 100 d)) by lia. simpl.
      fold eligible.
      destruct (send_all_effect lm po eligible (flash_sale_payload show_number d uuid) (sale_db s))
        as (Hp & Hc & _).
      pose proof (send_all_subscriptions po eligible (flash_sale_payload show_number d uuid) (sale_db s)) as Hs.
      destruct (send_all po eligible (flash_sale_payload show_number d uuid) (sale_db s)) as [oks db1].
      simpl in *. repeat split; assumption.
    + unfold end_sale. rewrite Lt, Ha. split; [reflexivity|].
      intros api' Ha'. unfold sale_status, over_limit. rewrite (proj2 (Nat.leb_gt _ _) Ha'). reflexivity.
Qed.

Lemma sale_endpoints_effects_witness :
  let verify := fun t : string => if String.eqb t "tok" then Some "admin@example.com"%string else None in
  let sub := mkSub "https://push/a" None (Some (mkPrefs [("flashSales"%string, true)] None None)) in
  let s := mkSaleSrv initialSale (mkDb [sub] [] [] []) [] in
  let r := start_sale (fun _ _ => 0) (fun _ => PushFailed 410) verify (fun _ => "20"%string) 0 0
             (Some "Bearer tok"%string) (Some (JNum 20)) "n1" s in
  (0 < apiLimiter_max)%nat /\
  authenticate verify (Some "Bearer tok"%string) = Some "admin@example.com"%string /\
  0 < 20 <= 100 /\
  fst r = 200 /\ currentSale (snd r) = mkSale true 20 /\ subscriptions (sale_db (snd r)) = [] /\
  start_sale (fun _ _ => 0) (fun _ => PushFailed 410) verify (fun _ => "20"%string) 0 0
    (Some "Bearer tok"%string) (Some (JNum 150)) "n1" s = (400, s).
Proof.
  intros verify sub s r.
  assert (Ha : authenticate verify (Some "Bearer tok"%string) = Some "admin@example.com"%string)
    by reflexivity.
  destruct (sale_endpoints_effects (fun _ _ => 0) (fun _ => PushFailed 410) verify
              (fun _ => "20"%string) 0 0 (Some "Bearer tok"%string) "n1" s) as (_ & _ & H).
  destruct (H _ ltac:(vm_compute; lia) Ha) as (H400 & H200 & _).
  split; [vm_compute; lia|]. split; [exact Ha|]. split; [lia|].
  destruct (H200 20 ltac:(lia)) as (E1 & E2 & _ & E4 & _).
  split; [exact E1|]. split; [exact E2|]. split; [unfold r; rewrite E4; vm_compute; reflexivity|].
  apply H400. intros d [= <-]. right. lia.
Defined.

(** ** Welcome notification *)

(** X17. [send-welcome-notification] answers 429 and changes nothing once
    the client has made 1000 earlier [/api/] requests in the current 15
    minutes.  Under that limit it answers 400 and changes nothing when the
    body has no subscription or its endpoint is missing or empty.
    Otherwise it always answers 200, whatever the push service answers
    ([sendWebPush] catches every failure, so the 500 branch is never
    taken): it pushes the welcome payload once to that endpoint, stores no
    campaign, and, if the push is answered 410 or 404, deletes the first
    stored subscription with that endpoint. *)
Theorem welcome_notification_effects :
  forall (po : string -> PushOutcome) (api_hits : nat) (db : Db),
  ((apiLimiter_max <= api_hits)%nat ->
     forall sb, send_welcome_notification po api_hits sb db = (429, db)) /\
  ((api_hits < apiLimiter_max)%nat ->
   (forall sb, (sb = None \/ exists b, sb = Some b /\ str_truthy (sb_endpoint b) = false) ->
      send_welcome_notification po api_hits sb db = (400, db)) /\
   (forall b e, sb_endpoint b = Some e -> str_truthy (Some e) = true ->
      let r := send_welcome_notification po api_hits (Some b) db in
      fst r = 200 /\
      pushes (snd r) = pushes db ++ [(e, welcome_payload)] /\
      campaigns (snd r) = campaigns db /\
      subscriptions (snd r)
        = if push_gone (po e) then snd (delete_one e (subscriptions db)) else subscriptions db)).
Proof.
  intros po api db. split.
  - intros Ha sb. unfold send_welcome_notification, over_limit.
    rewrite (proj2 (Nat.leb_le _ _) Ha). reflexivity.
  - intros Ha. assert (Lt : over_limit apiLimiter_max api = false) by (apply Nat.leb_gt; exact Ha).
    split.
    + intros sb [->|(b & -> & Hb)]; unfold send_welcome_notification; rewrite Lt; [reflexivity|].
      destruct (sb_endpoint b) as [e|]; [rewrite Hb; reflexivity | reflexivity].
    + intros b e He Ht r. unfold r, send_welcome_notification. rewrite Lt, He, Ht.
      unfold sendWebPush. simpl. unfold push_gone.
      destruct (po e) as [|code]; [repeat split|].
      destruct ((code =? 410) || (code =? 404)); repeat split.
Qed.

Lemma welcome_notification_effects_witness :
  let sub := mkSub "https://push/x" None None in
  let db := mkDb [sub; sub] [] [] [] in
  (0 < apiLimiter_max)%nat /\
  send_welcome_notification (fun _ => PushFailed 410) 0 None db = (400, db) /\
  sb_endpoint (mkSubBody (Some "https://push/x"%string) None) = Some "https://push/x"%string /\
  str_truthy (Some "https://push/x"%string) = true /\
  fst (send_welcome_notification (fun _ => PushFailed 410) 0
         (Some (mkSubBody (Some "https://push/x"%string) None)) db) = 200 /\
  subscriptions (snd (send_welcome_notification (fun _ => PushFailed 410) 0
                        (Some (mkSubBody (Some "https://push/x"%string) None)) db)) = [sub].
Proof.
  intros sub db.
  destruct (welcome_notification_effects (fun _ => PushFailed 410) 0 db) as [_ H].
  destruct (H ltac:(vm_compute; lia)) as [H400 H200].
  split; [vm_compute; lia|].
  split; [apply H400; left; reflexivity|]. split; [reflexivity|]. split; [reflexivity|].
  destruct (H200 (mkSubBody (Some "https://push/x"%string) None) "https://push/x"%string eq_refl eq_refl)
    as (E1 & _ & _ & E4).
  split; [exact E1|]. rewrite E4. vm_compute. reflexivity.
Defined.

(** ** Notification clicks *)

(** X18. Both [notificationclick] listeners handle every click.  The
    ['dismiss'] action only makes the first one send a [dismiss] event:
    the second still focuses the first storefront tab (a client URL with
    [localhost:3000/] and without [/admin]) or, with none, opens the
    origin.  The ['close'] action only silences the second one: the first
    still opens the notification's target and sends a [click] event.  A
    click on the body with no storefront tab open opens two windows. *)
Theorem notification_click_both_listeners :
  forall (resolve : JVal -> string -> option string) (origin : string) (can_open : bool)
         (data : option Doc) (cs : list string),
  let storefront := find (fun u => includes "localhost:3000/" u && negb (includes "/admin" u)) cs in
  notificationclick resolve origin can_open "dismiss" data cs
  = (deliver_effects (click_event_doc "dismiss" data),
     match storefront with
     | Some u => [FocusClient u]
     | None => if can_open then [OpenWindow (origin ++ "/")] else []
     end) /\
  (exists target, notificationclick resolve origin can_open "close" data cs
     = ((if can_open then [OpenWindow target] else []) ++ deliver_effects (click_event_doc "click" data),
        [])) /\
  (storefront = None -> can_open = true ->
     exists target, notificationclick resolve origin can_open "" data cs
       = (OpenWindow target :: deliver_effects (click_event_doc "click" data),
          [OpenWindow (origin ++ "/")])).
Proof.
  intros resolve origin can_open data cs storefront. split; [|split].
  - reflexivity.
  - eexists. reflexivity.
  - intros Hs Ho. unfold notificationclick, notificationclick_2, notificationclick_1.
    fold storefront. rewrite Hs, Ho. simpl. eexists. reflexivity.
Qed.

Lemma notification_click_both_listeners_witness :
  let data := Some [("url"%string, JStr "/sale"); ("campaignId"%string, JStr "flash-sale")] in
  let resolve := fun (v : JVal) (base : string) =>
                   match v with JStr u => Some (base ++ u)%string | _ => None end in
  find (fun u => includes "localhost:3000/" u && negb (includes "/admin" u))
    ["http://localhost:3000/admin"%string] = None /\
  notificationclick resolve "http://localhost:3000" true "" data ["http://localhost:3000/admin"%string]
  = ([OpenWindow "http://localhost:3000/sale";
      SendEvent [("campaignId"%string, JStr "flash-sale"); ("event"%string, JStr "click")]],
     [OpenWindow "http://localhost:3000/"]).
Proof.
  intros data resolve.
  assert (Hs : find (fun u => includes "localhost:3000/" u && negb (includes "/admin" u))
                 ["http://localhost:3000/admin"%string] = None) by (vm_compute; reflexivity).
  split; [exact Hs|].
  destruct (proj2 (proj2 (notification_click_both_listeners resolve "http://localhost:3000" true data
                            ["http://localhost:3000/admin"%string])) Hs eq_refl) as [t E].
  rewrite E. vm_compute in E. vm_compute. congruence.
Defined.
